(** * The match API server of ma_netease_cloud_music (umc_server/api-server.js)

    A shallow embedding of the HTTP facade found in
    [umc_server/api-server.js]: the start-up environment assignments, the
    request listener with its three routes, the promise chain around the
    [match] call and the JSON bodies it serialises.  The properties of the
    written specification are then stated against this embedding.

    Conventions.
    - [process.env] and the header table of a response are finite maps
      ([gmap string _]).
    - JavaScript values are the inductive [JsVal]; numbers are restricted to
      integers (bitrates and sizes are integers), objects are association
      lists because [JSON.stringify] emits properties in insertion order.
    - Code that can throw returns a [Completion].
    - Node's [url.parse] is a library function; the listener is written in a
      section over it.  [match] (./server/src/provider/match) is reached
      through a promise: the listener's result exposes the call and the
      continuation attached with [.then(..).catch(..)].
    - Console output is not part of the exchange and is left out, except for
      the property reads it performs, which can throw.
    - The engine behind [match] is not part of the sources at hand; module
      [Engine] models its ordered-fallback strategy from the written
      specification. *)

From Stdlib Require Import ZArith Ascii.
From stdpp Require Import gmap strings list fin_maps.

Local Open Scope Z_scope.
Set Warnings "-register-all".

(** ** JavaScript values *)

Inductive JsVal : Type :=
| JUndefined
| JNull
| JBool (b : bool)
| JNum (n : Z)
| JStr (s : string)
| JArr (items : list JsVal)
| JObj (props : list (string * JsVal)).

(** Result of evaluating code that may throw. *)
Inductive Completion (A : Type) : Type :=
| Normal (a : A)
| Throw (e : JsVal).
Arguments Normal {A} a.
Arguments Throw {A} e.

Definition bind {A B} (c : Completion A) (k : A -> Completion B) : Completion B :=
  match c with
  | Normal a => k a
  | Throw e => Throw e
  end.

Notation "'let!' x ':=' c 'in' k" := (bind c (fun x => k))
  (at level 10, x name, c at level 100, k at level 200).

(** ToBoolean: [undefined], [null], [false], [0] and [''] are falsy. *)
Definition truthy (v : JsVal) : bool :=
  match v with
  | JUndefined | JNull => false
  | JBool b => b
  | JNum n => negb (n =? 0)
  | JStr s => negb (String.eqb s "")
  | JArr _ | JObj _ => true
  end.

(** [a || b] *)
Definition js_or (a b : JsVal) : JsVal := if truthy a then a else b.

(** [v === n] for a number literal [n]: no coercion, only a number equals it. *)
Definition strict_eq_num (v : JsVal) (n : Z) : bool :=
  match v with
  | JNum m => m =? n
  | _ => false
  end.

Fixpoint assoc (k : string) (ps : list (string * JsVal)) : JsVal :=
  match ps with
  | [] => JUndefined
  | (k', v) :: ps' => if String.eqb k k' then v else assoc k ps'
  end.

(** A TypeError object as V8 builds it for a property read on a nullish
    value. *)
Definition type_error (msg : string) : JsVal :=
  JObj [("name", JStr "TypeError"); ("message", JStr msg)].

Definition nullish_name (v : JsVal) : string :=
  match v with JNull => "null" | _ => "undefined" end.

(** [v.k] for the property names the server reads ([source], [url], [br],
    [size], [md5], [message]): a read on [undefined] or [null] throws, an
    object yields its own property, and the primitive wrappers and arrays
    have no property of these names. *)
Definition get_prop (v : JsVal) (k : string) : Completion JsVal :=
  match v with
  | JUndefined | JNull =>
      Throw (type_error ("Cannot read properties of " +:+ nullish_name v
                         +:+ " (reading '" +:+ k +:+ "')"))
  | JObj ps => Normal (assoc k ps)
  | _ => Normal JUndefined
  end.

(** [v?.k] *)
Definition opt_get_prop (v : JsVal) (k : string) : JsVal :=
  match v with
  | JUndefined | JNull => JUndefined
  | JObj ps => assoc k ps
  | _ => JUndefined
  end.

(** ** String.prototype.split and Array.prototype.join *)

(** [split_from sep cur skip s] scans [s] left to right; [cur] is the piece
    being accumulated and [skip] the number of characters of a separator
    occurrence that are still to be passed over. *)
Fixpoint split_from (sep cur : string) (skip : nat) (s : string) : list string :=
  match s with
  | EmptyString => [cur]
  | String c s' =>
      match skip with
      | S k => split_from sep cur k s'
      | O =>
          if String.prefix sep s
          then cur :: split_from sep "" (Nat.pred (String.length sep)) s'
          else split_from sep (cur +:+ String c "") O s'
      end
  end.

Fixpoint chars (s : string) : list string :=
  match s with
  | EmptyString => []
  | String c s' => String c "" :: chars s'
  end.

(** [s.split(sep)] *)
Definition js_split (sep s : string) : list string :=
  match sep with
  | EmptyString => chars s
  | _ => split_from sep "" O s
  end.

(** [l.join(sep)] on an array of strings *)
Fixpoint js_join (sep : string) (l : list string) : string :=
  match l with
  | [] => ""
  | [x] => x
  | x :: l' => x +:+ sep +:+ js_join sep l'
  end.

(** [a[i]]: an index past the end reads [undefined]. *)
Definition js_index (l : list string) (i : nat) : JsVal :=
  match l !! i with
  | Some s => JStr s
  | None => JUndefined
  end.

(** Does [sep] occur somewhere in [s]? *)
Fixpoint occurs (sep s : string) : bool :=
  String.prefix sep s ||
  match s with
  | EmptyString => false
  | String _ s' => occurs sep s'
  end.

(** ** JSON.stringify *)

Inductive Json : Type :=
| JsonNull
| JsonBool (b : bool)
| JsonNum (n : Z)
| JsonStr (s : string)
| JsonArr (items : list Json)
| JsonObj (members : list (string * Json)).

(** The JSON text produced by [JSON.stringify(v, null, 2)], as the tree it
    denotes.  [None] is the [undefined] that [JSON.stringify(undefined)]
    returns.  A property whose value is [undefined] is left out of its
    object; an [undefined] array element is written [null]. *)
Fixpoint JSON_stringify (v : JsVal) : option Json :=
  match v with
  | JUndefined => None
  | JNull => Some JsonNull
  | JBool b => Some (JsonBool b)
  | JNum n => Some (JsonNum n)
  | JStr s => Some (JsonStr s)
  | JArr items =>
      Some (JsonArr (map (fun x => default JsonNull (JSON_stringify x)) items))
  | JObj props =>
      Some (JsonObj
        ((fix members (ps : list (string * JsVal)) : list (string * Json) :=
            match ps with
            | [] => []
            | (k, x) :: ps' =>
                match JSON_stringify x with
                | Some j => (k, j) :: members ps'
                | None => members ps'
                end
            end) props))
  end.

(** ** process.env at start-up (api-server.js lines 1-8 and 161) *)

(** The five assignments executed when the module is loaded, in source
    order. *)
Definition startup_env (env : gmap string string) : gmap string string :=
  <["FOLLOW_SOURCE_ORDER" := "false"]>
    (<["SELECT_MAX_BR" := "true"]>
      (<["ENABLE_FLAC" := "true"]>
        (<["ENABLE_LOCAL_VIP" := "true"]>
          (<["DEVELOPMENT" := "true"]> env)))).

(** [process.env.NAME]: a string, or [undefined] when unset. *)
Definition env_get (env : gmap string string) (name : string) : JsVal :=
  match env !! name with
  | Some s => JStr s
  | None => JUndefined
  end.

(** [const PORT = process.env.PORT || 3000] *)
Definition PORT (env : gmap string string) : JsVal :=
  js_or (env_get (startup_env env) "PORT") (JNum 3000).

(** ** The response object *)

(** The usage page served at [/]: what it documents, not its markup. *)
Record UsagePage : Type := {
  documented_endpoints : list string;
  documented_sources : list string
}.

Inductive Body : Type :=
| NoBody
| JsonBody (j : Json)
| HtmlBody (page : UsagePage).

(** [http.ServerResponse], as far as the listener drives it. *)
Record ServerResponse : Type := {
  headers : gmap string string;
  statusCode : option Z;
  body : option Body
}.

Definition fresh_response : ServerResponse :=
  {| headers := ∅; statusCode := None; body := None |}.

(** [res.setHeader(name, value)] *)
Definition setHeader (name value : string) (res : ServerResponse) : ServerResponse :=
  {| headers := <[name := value]> (headers res);
     statusCode := statusCode res;
     body := body res |}.

(** [res.writeHead(status, hs)]: the headers given here are merged over the
    ones set before and take precedence. *)
Definition writeHead (status : Z) (hs : gmap string string)
    (res : ServerResponse) : ServerResponse :=
  {| headers := hs ∪ headers res;
     statusCode := Some status;
     body := body res |}.

(** [res.end(data)] *)
Definition end_ (data : Body) (res : ServerResponse) : ServerResponse :=
  {| headers := headers res;
     statusCode := statusCode res;
     body := Some data |}.

(** [res.end(JSON.stringify(v, null, 2))] *)
Definition end_json (v : JsVal) (res : ServerResponse) : ServerResponse :=
  end_ (match JSON_stringify v with Some j => JsonBody j | None => NoBody end) res.

Definition json_content_type : gmap string string :=
  {["Content-Type" := "application/json"]}.

Definition html_content_type : gmap string string :=
  {["Content-Type" := "text/html; charset=utf-8"]}.

(** The names of the members of a JSON body, in the order they are written. *)
Definition body_fields (res : ServerResponse) : list string :=
  match body res with
  | Some (JsonBody (JsonObj ms)) => map fst ms
  | _ => []
  end.

Fixpoint json_assoc (k : string) (ms : list (string * Json)) : option Json :=
  match ms with
  | [] => None
  | (k', j) :: ms' => if String.eqb k k' then Some j else json_assoc k ms'
  end.

(** The value of member [k] of a JSON body. *)
Definition body_field (res : ServerResponse) (k : string) : option Json :=
  match body res with
  | Some (JsonBody (JsonObj ms)) => json_assoc k ms
  | _ => None
  end.

(** ** The request listener (api-server.js lines 14-154) *)

Record Request : Type := {
  method : string;
  url : string
}.

(** [parsedUrl.query.sources] as [querystring] delivers it: absent, the
    value of the single occurrence, or the array of values when the key is
    repeated. *)
Inductive QueryValue : Type :=
| QAbsent
| QSingle (s : string)
| QMulti (l : list string).

(** The two fields of [url.parse(req.url, true)] the listener reads. *)
Record Url : Type := {
  pathname : string;
  query_sources : QueryValue
}.

(** How the promise returned by [match] settles. *)
Inductive Settled : Type :=
| Fulfilled (result : JsVal)
| Rejected (error : JsVal).

(** What one run of the listener does: it ends the response itself, it dies
    on an exception nothing catches, or it calls [match songId sources] and
    leaves the response to the handlers chained on the promise. *)
Inductive Reaction : Type :=
| Responded (res : ServerResponse)
| Uncaught (e : JsVal) (res : ServerResponse)
| Awaiting (songId : JsVal) (sources : list string) (k : Settled -> ServerResponse).

(** The source list used when the request names none (line 31). *)
Definition default_sources : list string :=
  ["qq"; "kugou"; "kuwo"; "migu"; "ytdlp"].

(** Lines 85-104 of the page: the two usage forms and the list under
    "supported sources". *)
Definition usage_page : UsagePage :=
  {| documented_endpoints :=
       ["GET /match/{songId}"; "GET /match/{songId}?sources=qq,kugou,kuwo"];
     documented_sources :=
       ["qq"; "kugou"; "kuwo"; "migu"; "ytdlp"; "bilivideo"; "joox"] |}.

(** Lines 29-31: [q ? q.split(',') : [...]].  The empty string is falsy; an
    array is truthy and has no [split] method. *)
Definition requested_sources (q : QueryValue) : Completion (list string) :=
  match q with
  | QAbsent => Normal default_sources
  | QSingle s =>
      if String.eqb s "" then Normal default_sources
      else Normal (js_split "," s)
  | QMulti _ =>
      Throw (type_error "parsedUrl.query.sources.split is not a function")
  end.

Definition js_strings (l : list string) : JsVal := JArr (map JStr l).

(** The [.then] callback, lines 36-50.  The template literal of the log line
    reads [result.source] and [result.url] before anything is written. *)
Definition on_fulfilled (songId : JsVal) (sources : list string)
    (res : ServerResponse) (result : JsVal) : Completion ServerResponse :=
  let! _logged_source := get_prop result "source" in
  let! _logged_url := get_prop result "url" in
  let res := writeHead 200 json_content_type res in
  let! audioUrl := get_prop result "url" in
  let! bitrate := get_prop result "br" in
  let! size := get_prop result "size" in
  let! md5 := get_prop result "md5" in
  let! source := get_prop result "source" in
  let! br := get_prop result "br" in
  Normal (end_json (JObj [
    ("success", JBool true);
    ("songId", songId);
    ("requestedSources", js_strings sources);
    ("audioUrl", audioUrl);
    ("bitrate", bitrate);
    ("size", size);
    ("md5", md5);
    ("source", source);
    ("type", JStr (if strict_eq_num br 999000 then "flac" else "mp3"))
  ]) res).

(** The [.catch] callback, lines 51-62. *)
Definition on_rejected (songId : JsVal) (sources : list string)
    (res : ServerResponse) (error : JsVal) : ServerResponse :=
  let errorMessage := js_or (opt_get_prop error "message") (JStr "Unknown error") in
  let res := writeHead 404 json_content_type res in
  end_json (JObj [
    ("success", JBool false);
    ("songId", songId);
    ("requestedSources", js_strings sources);
    ("error", JStr "Song not found in any source");
    ("details", errorMessage)
  ]) res.

(** [p.then(f).catch(g)]: [g] receives the rejection of [p] and also whatever
    [f] throws. *)
Definition then_catch (f : JsVal -> Completion ServerResponse)
    (g : JsVal -> ServerResponse) (p : Settled) : ServerResponse :=
  match p with
  | Fulfilled v =>
      match f v with
      | Normal res => res
      | Throw e => g e
      end
  | Rejected e => g e
  end.

Section Listener.

(** Node's [url.parse(_, true)]. *)
Variable url_parse : string -> Url.

Definition handler (req : Request) : Reaction :=
  let res := setHeader "Access-Control-Allow-Origin" "*" fresh_response in
  let res := setHeader "Access-Control-Allow-Methods" "GET, OPTIONS" res in
  let res := setHeader "Access-Control-Allow-Headers" "Content-Type" res in
  if String.eqb (method req) "OPTIONS" then
    Responded (end_ NoBody (writeHead 200 ∅ res))
  else if String.prefix "/match/" (url req) && String.eqb (method req) "GET" then
    let parsedUrl := url_parse (url req) in
    let songId := js_index (js_split "/match/" (pathname parsedUrl)) 1 in
    match requested_sources (query_sources parsedUrl) with
    | Throw e => Uncaught e res
    | Normal sources =>
        Awaiting songId sources
          (then_catch (on_fulfilled songId sources res)
                      (on_rejected songId sources res))
    end
  else if String.eqb (url req) "/" && String.eqb (method req) "GET" then
    Responded (end_ (HtmlBody usage_page) (writeHead 200 html_content_type res))
  else
    Responded (end_json (JObj [
      ("error", JStr "Not found");
      ("availableEndpoints", js_strings ["/"; "/match/{songId}"])
    ]) (writeHead 404 json_content_type res)).

(** The call to [match] a run of the listener makes, if it makes one. *)
Definition dispatched (req : Request) : option (JsVal * list string) :=
  match handler req with
  | Awaiting songId sources _ => Some (songId, sources)
  | _ => None
  end.

(** The response the client receives once the promise (if any) has settled
    as [p]; [None] when the listener died before ending the response. *)
Definition respond (req : Request) (p : Settled) : option ServerResponse :=
  match handler req with
  | Responded res => Some res
  | Uncaught _ _ => None
  | Awaiting _ _ k => Some (k p)
  end.

End Listener.

(** The values given to [key] in a query string: the query is cut at [&]
    and each pair at its first [=]. *)
Definition query_values (key query : string) : list string :=
  omap (fun pair =>
          match js_split "=" pair with
          | k :: vs => if String.eqb k key then Some (js_join "=" vs) else None
          | [] => None
          end)
       (js_split "&" query).

(** A reading of [url.parse(u, true)] for request targets that carry no
    fragment and no escape: the path runs to the first [?] and the rest is
    the query string. *)
Definition plain_url_parse (u : string) : Url :=
  match js_split "?" u with
  | [] => {| pathname := u; query_sources := QAbsent |}
  | [p] => {| pathname := p; query_sources := QAbsent |}
  | p :: qs =>
      {| pathname := p;
         query_sources :=
           match query_values "sources" (js_join "?" qs) with
           | [] => QAbsent
           | [v] => QSingle v
           | vs => QMulti vs
           end |}
  end.

Definition GET (u : string) : Request := {| method := "GET"; url := u |}.

(** ** The resolution engine under ordered fallback *)

Module Engine.

(** Modelled from the spec: the data model of section 3 (the engine,
    ./server/src/provider, is not among the sources).  Identifiers are
    opaque strings. *)
Definition TrackIdentifier : Type := string.
Definition SourceIdentifier : Type := string.

(** Modelled from the spec: "resolved audio URL, bitrate (integer, 0 if
    unknown), byte size (0 if unknown), content checksum (optional),
    originating SourceIdentifier". *)
Record CandidateStream : Type := {
  stream_url : string;
  stream_bitrate : Z;
  stream_size : Z;
  stream_checksum : option string;
  stream_source : SourceIdentifier
}.

(** Modelled from the spec: "a short machine-readable cause (not-found /
    timeout / transport-error / backend-error)". *)
Inductive Cause : Type := NotFound | Timeout | TransportError | BackendError.

(** Modelled from the spec: one adapter's unsuccessful outcome. *)
Record Failure : Type := {
  failure_source : SourceIdentifier;
  failure_cause : Cause;
  failure_detail : string
}.

(** What one adapter call yields. *)
Inductive Outcome : Type :=
| Candidate (c : CandidateStream)
| Failed (f : Failure).

(** Modelled from the spec: the Source Adapter capability of section 4.1,
    [resolve(trackId) -> CandidateStream | Failure].  The adapters live in
    ./server/src/provider, which is not among the sources; a timeout is one
    of the failure causes, so the call is a total function here. *)
Definition Adapter : Type := TrackIdentifier -> Outcome.

(** Modelled from the spec: the ResolutionResult of section 3, success XOR
    exhaustion, and the validation error of section 7 that is raised before
    dispatch. *)
Inductive ResolutionResult : Type :=
| Success (c : CandidateStream)
| Exhausted (failures : list Failure)
| ValidationError.

(** Modelled from the spec: the states of section 4.4.  [Collecting] holds the outcome of the one
    call in flight; [pending] are the adapters not yet invoked, in priority
    order. *)
Inductive Phase : Type :=
| Idle (selected : list (SourceIdentifier * Adapter))
| Dispatching (pending : list (SourceIdentifier * Adapter)) (failures : list Failure)
| Collecting (o : Outcome) (pending : list (SourceIdentifier * Adapter))
             (failures : list Failure)
| Decided (r : ResolutionResult).

(** A run of the orchestrator: its phase and the adapters invoked so far,
    oldest first. *)
Record Machine : Type := {
  phase : Phase;
  invoked : list SourceIdentifier
}.

Definition start (selected : list (SourceIdentifier * Adapter)) : Machine :=
  {| phase := Idle selected; invoked := [] |}.

(** Modelled from the spec: the Resolution Orchestrator of section 4.4
    under ordered fallback (the [match] module of ./server/src/provider is
    not among the sources).  "Adapters are invoked strictly one at a time
    in priority order; as soon as one returns a CandidateStream, it is the
    immediate winner and remaining adapters are not invoked.  A Failure
    moves to the next adapter."  An empty selection is a validation error
    raised before entering Dispatching; if every adapter fails the result
    is Exhausted with one Failure per attempted adapter in attempted
    order. *)
Definition step (track : TrackIdentifier) (m : Machine) : Machine :=
  match phase m with
  | Idle [] =>
      {| phase := Decided ValidationError; invoked := invoked m |}
  | Idle selected =>
      {| phase := Dispatching selected []; invoked := invoked m |}
  | Dispatching [] failures =>
      {| phase := Decided (Exhausted failures); invoked := invoked m |}
  | Dispatching ((source, adapter) :: pending) failures =>
      {| phase := Collecting (adapter track) pending failures;
         invoked := invoked m ++ [source] |}
  | Collecting (Candidate c) _ _ =>
      {| phase := Decided (Success c); invoked := invoked m |}
  | Collecting (Failed f) pending failures =>
      {| phase := Dispatching pending (failures ++ [f]); invoked := invoked m |}
  | Decided r => m
  end.

Fixpoint run (track : TrackIdentifier) (n : nat) (m : Machine) : Machine :=
  match n with
  | O => m
  | S n' => run track n' (step track m)
  end.

(** Two transitions per adapter, one to leave [Idle], one to decide. *)
Definition resolve (track : TrackIdentifier)
    (selected : list (SourceIdentifier * Adapter)) : Machine :=
  run track (2 * length selected + 2) (start selected).

Definition decision (m : Machine) : option ResolutionResult :=
  match phase m with
  | Decided r => Some r
  | _ => None
  end.

Definition fails (track : TrackIdentifier) (a : SourceIdentifier * Adapter) : bool :=
  match a.2 track with
  | Failed _ => true
  | Candidate _ => false
  end.

(** The invocations made so far and the adapters still pending are, put
    together, the selection in its priority order. *)
Definition in_priority_order (selected : list (SourceIdentifier * Adapter))
    (m : Machine) : Prop :=
  match phase m with
  | Idle s => s = selected /\ invoked m = []
  | Dispatching pending _ | Collecting _ pending _ =>
      map fst selected = invoked m ++ map fst pending
  | Decided _ => invoked m `prefix_of` map fst selected
  end.

End Engine.

(** ** Vocabulary of the statements *)

(** [undefined] or [null]. *)
Definition nullish (v : JsVal) : bool :=
  match v with
  | JUndefined | JNull => true
  | _ => false
  end.

(** Anything but [undefined]. *)
Definition defined (v : JsVal) : bool :=
  match v with
  | JUndefined => false
  | _ => true
  end.

(** The members [JSON.stringify] writes for an object with properties [ps]. *)
Definition json_members (ps : list (string * JsVal)) : list (string * Json) :=
  match JSON_stringify (JObj ps) with
  | Some (JsonObj ms) => ms
  | _ => []
  end.

(** The response as it stands after the three [setHeader] calls that open
    the listener. *)
Definition cors_response : ServerResponse :=
  setHeader "Access-Control-Allow-Headers" "Content-Type"
    (setHeader "Access-Control-Allow-Methods" "GET, OPTIONS"
      (setHeader "Access-Control-Allow-Origin" "*" fresh_response)).

(** The promise chain the match route hangs on [match songId sources]. *)
Definition chain (songId : JsVal) (sources : list string) : Settled -> ServerResponse :=
  then_catch (on_fulfilled songId sources cors_response)
             (on_rejected songId sources cors_response).

Definition has_cors (res : ServerResponse) : Prop :=
  headers res !! "Access-Control-Allow-Origin" = Some "*" /\
  headers res !! "Access-Control-Allow-Methods" = Some "GET, OPTIONS" /\
  headers res !! "Access-Control-Allow-Headers" = Some "Content-Type".

(** The object literal of the success body, for a [result] that is not
    nullish. *)
Definition success_object (songId : JsVal) (sources : list string)
    (result : JsVal) : list (string * JsVal) :=
  [ ("success", JBool true);
    ("songId", songId);
    ("requestedSources", js_strings sources);
    ("audioUrl", opt_get_prop result "url");
    ("bitrate", opt_get_prop result "br");
    ("size", opt_get_prop result "size");
    ("md5", opt_get_prop result "md5");
    ("source", opt_get_prop result "source");
    ("type", JStr (if strict_eq_num (opt_get_prop result "br") 999000
                   then "flac" else "mp3")) ].

(** A sample of what [match] resolves with. *)
Definition sample_result : JsVal :=
  JObj [ ("size", JNum 4194304); ("br", JNum 128000);
         ("url", JStr "https://example.com/audio.mp3");
         ("md5", JStr "abc123"); ("source", JStr "qq") ].

(** Sample adapters outcomes for the engine. *)
Definition sample_stream (source : string) (bitrate : Z) : Engine.CandidateStream :=
  {| Engine.stream_url := "https://example.com/" +:+ source;
     Engine.stream_bitrate := bitrate;
     Engine.stream_size := 0;
     Engine.stream_checksum := None;
     Engine.stream_source := source |}.

Definition not_found (source : string) : Engine.Adapter :=
  fun _ => Engine.Failed
    {| Engine.failure_source := source;
       Engine.failure_cause := Engine.NotFound;
       Engine.failure_detail := "no match" |}.

(** * Properties *)

(** ** Strings *)

Example split_commas : js_split "," "qq,kugou,migu" = ["qq"; "kugou"; "migu"].
Proof. reflexivity. Qed.

Example split_empty : js_split "," "" = [""].
Proof. reflexivity. Qed.

Example split_path : js_split "/match/" "/match/418602084" = [""; "418602084"].
Proof. reflexivity. Qed.

Example split_path_twice : js_split "/match/" "/match/1/match/2" = [""; "1"; "2"].
Proof. reflexivity. Qed.

Lemma append_cons c s t : String c s +:+ t = String c (s +:+ t).
Proof. reflexivity. Qed.

Lemma append_nil_l t : "" +:+ t = t.
Proof. reflexivity. Qed.

Lemma append_nil_r s : s +:+ "" = s.
Proof. induction s as [|c s IH]; [done|]. by rewrite append_cons, IH. Qed.

Lemma append_assoc s t u : (s +:+ t) +:+ u = s +:+ t +:+ u.
Proof. induction s as [|c s IH]; [done|]. by rewrite !append_cons, IH. Qed.

Lemma prefix_append sep s : String.prefix sep (sep +:+ s) = true.
Proof.
  induction sep as [|c sep IH]; [by destruct s|].
  rewrite append_cons. simpl. by destruct (ascii_dec c c).
Qed.

(** Passing over the rest of a separator occurrence. *)
Lemma split_from_skip sep cur p s :
  split_from sep cur (String.length p) (p +:+ s) = split_from sep cur O s.
Proof.
  induction p as [|c p IH]; [done|].
  rewrite append_cons. simpl. exact IH.
Qed.

Lemma split_from_sep c sep cur s :
  split_from (String c sep) cur O (String c sep +:+ s)
  = cur :: split_from (String c sep) "" O s.
Proof.
  rewrite append_cons.
  change (split_from (String c sep) cur 0 (String c (sep +:+ s)))
    with (if String.prefix (String c sep) (String c (sep +:+ s))
          then cur :: split_from (String c sep) "" (String.length sep) (sep +:+ s)
          else split_from (String c sep) (cur +:+ String c "") O (sep +:+ s)).
  rewrite <- append_cons, prefix_append. by rewrite split_from_skip.
Qed.

(** A string in which the separator does not occur is one piece. *)
Lemma split_from_absent sep cur s :
  occurs sep s = false -> split_from sep cur O s = [cur +:+ s].
Proof.
  revert cur. induction s as [|c s IH]; intros cur H.
  - by rewrite append_nil_r.
  - cbn [occurs] in H. apply orb_false_iff in H as [Hp Ho].
    cbn [split_from]. rewrite Hp, IH by done.
    by rewrite append_assoc.
Qed.

(** [split] cuts at the leading separator and leaves an empty first piece. *)
Lemma js_split_leading sep s :
  sep <> "" -> js_split sep (sep +:+ s) = "" :: js_split sep s.
Proof.
  destruct sep as [|c sep]; [done|]. intros _. apply split_from_sep.
Qed.

(** With a one-character separator, a piece free of it ends at the next
    occurrence. *)
Lemma split_from_piece c cur t rest :
  occurs (String c "") t = false ->
  split_from (String c "") cur O (t +:+ String c "" +:+ rest)
  = (cur +:+ t) :: split_from (String c "") "" O rest.
Proof.
  revert cur. induction t as [|d t IH]; intros cur H.
  - rewrite append_nil_l, append_nil_r. apply split_from_sep.
  - cbn [occurs] in H. apply orb_false_iff in H as [Hp Ho].
    rewrite append_cons. cbn [split_from].
    assert (String.prefix (String c "") (String d (t +:+ String c "" +:+ rest)) = false) as ->.
    { simpl in *. destruct (ascii_dec c d); [|done]. by destruct t. }
    rewrite IH by done. by rewrite append_assoc.
Qed.

(** Splitting a comma-joined list of comma-free tokens returns the tokens,
    in their order. *)
Lemma js_split_join c (l : list string) :
  l <> [] ->
  forallb (fun t => negb (occurs (String c "") t)) l = true ->
  js_split (String c "") (js_join (String c "") l) = l.
Proof.
  unfold js_split. induction l as [|t l IH]; [done|]. intros _ H.
  cbn [forallb] in H. apply andb_true_iff in H as [Ht Hl].
  apply negb_true_iff in Ht.
  destruct l as [|t' l].
  - cbn [js_join]. by rewrite split_from_absent.
  - change (js_join (String c "") (t :: t' :: l))
      with (t +:+ String c "" +:+ js_join (String c "") (t' :: l)).
    rewrite split_from_piece by done. rewrite IH by done. done.
Qed.

(** ** JavaScript values *)

Lemma strict_eq_num_spec v n : strict_eq_num v n = true <-> v = JNum n.
Proof.
  destruct v; simpl; try (split; [done | intros [=]]).
  rewrite Z.eqb_eq. split; [by intros -> | by intros [= ->]].
Qed.

Lemma defined_spec v : defined v = true <-> v <> JUndefined.
Proof. destruct v; simpl; split; done. Qed.

Lemma js_or_defined a b : b <> JUndefined -> js_or a b <> JUndefined.
Proof.
  unfold js_or. destruct (truthy a) eqn:E; [|done].
  intros _ ->. done.
Qed.

(** ** JSON bodies *)

Lemma JSON_stringify_None v : JSON_stringify v = None <-> v = JUndefined.
Proof. destruct v; simpl; split; done. Qed.

Lemma JSON_stringify_num v n : JSON_stringify v = Some (JsonNum n) <-> v = JNum n.
Proof. destruct v; simpl; split; intros; simplify_eq; done. Qed.

Lemma json_members_cons k x ps :
  json_members ((k, x) :: ps)
  = match JSON_stringify x with
    | Some j => (k, j) :: json_members ps
    | None => json_members ps
    end.
Proof. unfold json_members. simpl. by destruct (JSON_stringify x). Qed.

Lemma json_assoc_absent k ps :
  k ∉ map fst ps -> json_assoc k (json_members ps) = None.
Proof.
  induction ps as [|[k' x] ps IH]; [done|]. intros Hk.
  apply not_elem_of_cons in Hk as [Hne Hk]. simpl in Hne.
  rewrite json_members_cons. destruct (JSON_stringify x); [|by apply IH].
  simpl. destruct (String.eqb_spec k k'); [done|]. by apply IH.
Qed.

(** Reading a member of the serialised object is reading the property and
    serialising it, provided no property name is repeated. *)
Lemma json_assoc_members k ps :
  NoDup (map fst ps) ->
  json_assoc k (json_members ps) = JSON_stringify (assoc k ps).
Proof.
  induction ps as [|[k' x] ps IH]; [done|]. intros Hnd.
  apply NoDup_cons in Hnd as [Hk' Hnd]. simpl in Hk'.
  rewrite json_members_cons. simpl.
  destruct (String.eqb_spec k k') as [->|Hne].
  - destruct (JSON_stringify x) eqn:Hx.
    + simpl. by rewrite String.eqb_refl.
    + by apply json_assoc_absent.
  - destruct (JSON_stringify x); [|by apply IH].
    simpl. destruct (String.eqb_spec k k'); [done|]. by apply IH.
Qed.

(** Properties that hold a value are all written, in order. *)
Lemma json_members_defined ps :
  Forall (fun kv => kv.2 <> JUndefined) ps ->
  map fst (json_members ps) = map fst ps.
Proof.
  induction 1 as [|[k x] ps Hx _ IH]; [done|].
  rewrite json_members_cons. simpl in Hx.
  destruct (JSON_stringify x) eqn:E.
  - simpl. by rewrite IH.
  - by apply JSON_stringify_None in E.
Qed.

Lemma body_fields_end_json ps res :
  body_fields (end_json (JObj ps) res) = map fst (json_members ps).
Proof. reflexivity. Qed.

Lemma body_field_end_json ps res k :
  body_field (end_json (JObj ps) res) k = json_assoc k (json_members ps).
Proof. reflexivity. Qed.

Lemma success_object_keys songId sources result :
  map fst (success_object songId sources result)
  = ["success"; "songId"; "requestedSources"; "audioUrl"; "bitrate"; "size";
     "md5"; "source"; "type"].
Proof. reflexivity. Qed.

Lemma success_object_NoDup songId sources result :
  NoDup (map fst (success_object songId sources result)).
Proof.
  rewrite success_object_keys. apply (bool_decide_unpack _). by vm_compute.
Qed.

(** ** The promise handlers *)

Lemma get_prop_defined v k :
  nullish v = false -> get_prop v k = Normal (opt_get_prop v k).
Proof. by destruct v. Qed.

Lemma on_fulfilled_object songId sources res result :
  nullish result = false ->
  on_fulfilled songId sources res result
  = Normal (end_json (JObj (success_object songId sources result))
                     (writeHead 200 json_content_type res)).
Proof.
  intros H. unfold on_fulfilled. by rewrite !(get_prop_defined _ _ H).
Qed.

Lemma on_fulfilled_nullish songId sources res result :
  nullish result = true ->
  exists e, on_fulfilled songId sources res result = Throw e.
Proof. destruct result; try done; intros _; eexists; reflexivity. Qed.

Lemma then_catch_status songId sources res p :
  statusCode (then_catch (on_fulfilled songId sources res)
                         (on_rejected songId sources res) p)
  = Some (match p with
          | Fulfilled v => if nullish v then 404 else 200
          | Rejected _ => 404
          end).
Proof.
  destruct p as [v|e]; [|done]. simpl.
  destruct (nullish v) eqn:Hv.
  - by destruct (on_fulfilled_nullish songId sources res v Hv) as [e ->].
  - by rewrite on_fulfilled_object.
Qed.

(** ** Headers *)

Lemma has_cors_cors_response : has_cors cors_response.
Proof. repeat split; by vm_compute. Qed.

Lemma has_cors_end_ data res : has_cors res -> has_cors (end_ data res).
Proof. done. Qed.

Lemma has_cors_end_json v res : has_cors res -> has_cors (end_json v res).
Proof. done. Qed.

(** [writeHead] merges: headers it does not name are kept. *)
Lemma has_cors_writeHead status hs res :
  hs !! "Access-Control-Allow-Origin" = None ->
  hs !! "Access-Control-Allow-Methods" = None ->
  hs !! "Access-Control-Allow-Headers" = None ->
  has_cors res -> has_cors (writeHead status hs res).
Proof.
  intros H1 H2 H3 (Ho & Hm & Hh). unfold has_cors, writeHead. simpl.
  by rewrite !lookup_union_r.
Qed.

Lemma has_cors_on_rejected songId sources res e :
  has_cors res -> has_cors (on_rejected songId sources res e).
Proof.
  intros H. unfold on_rejected. apply has_cors_end_json.
  by apply has_cors_writeHead.
Qed.

Lemma has_cors_then_catch songId sources res p :
  has_cors res ->
  has_cors (then_catch (on_fulfilled songId sources res)
                       (on_rejected songId sources res) p).
Proof.
  intros H. destruct p as [v|e]; [|by apply has_cors_on_rejected]. simpl.
  destruct (nullish v) eqn:Hv.
  - destruct (on_fulfilled_nullish songId sources res v Hv) as [e ->].
    by apply has_cors_on_rejected.
  - rewrite on_fulfilled_object by done.
    apply has_cors_end_json. by apply has_cors_writeHead.
Qed.

(** ** The listener *)

Section ListenerFacts.

Variable url_parse : string -> Url.

Lemma handler_match_route u :
  String.prefix "/match/" u = true ->
  handler url_parse (GET u)
  = let songId := js_index (js_split "/match/" (pathname (url_parse u))) 1 in
    match requested_sources (query_sources (url_parse u)) with
    | Throw e => Uncaught e cors_response
    | Normal sources => Awaiting songId sources (chain songId sources)
    end.
Proof. intros H. unfold handler, GET. simpl. by rewrite H. Qed.

Lemma handler_other_route req :
  String.prefix "/match/" (url req) && String.eqb (method req) "GET" = false ->
  exists res, handler url_parse req = Responded res /\
    (statusCode res = Some 200 \/ statusCode res = Some 404) /\ has_cors res.
Proof.
  intros H. unfold handler. rewrite H. fold cors_response.
  pose proof has_cors_cors_response as Hc.
  destruct (String.eqb (method req) "OPTIONS").
  { eexists; split; [done|]. split; [by left|].
    apply has_cors_end_, has_cors_writeHead; done. }
  destruct (String.eqb (url req) "/" && String.eqb (method req) "GET").
  - eexists; split; [done|]. split; [by left|].
    apply has_cors_end_, has_cors_writeHead; done.
  - eexists; split; [done|]. split; [by right|].
    apply has_cors_end_json, has_cors_writeHead; done.
Qed.

Lemma handler_cases req :
  (exists res, handler url_parse req = Responded res /\
     (statusCode res = Some 200 \/ statusCode res = Some 404) /\ has_cors res) \/
  (exists e, handler url_parse req = Uncaught e cors_response) \/
  (exists songId sources,
     handler url_parse req = Awaiting songId sources (chain songId sources)).
Proof.
  destruct (String.prefix "/match/" (url req) && String.eqb (method req) "GET")
    eqn:Hroute; [|left; by apply handler_other_route].
  destruct (String.eqb (method req) "OPTIONS") eqn:Hopt.
  { left. unfold handler. rewrite Hopt. fold cors_response.
    eexists; split; [done|]. split; [by left|].
    pose proof has_cors_cors_response as Hc.
    apply has_cors_end_, has_cors_writeHead; done. }
  right. unfold handler. rewrite Hopt, Hroute. fold cors_response. cbv zeta.
  destruct (requested_sources _); [right|left]; eauto.
Qed.

Lemma dispatched_handler req songId sources :
  dispatched url_parse req = Some (songId, sources) ->
  handler url_parse req = Awaiting songId sources (chain songId sources).
Proof.
  unfold dispatched.
  destruct (handler_cases req) as [(res & -> & _) | [(e & ->) | (i & l & ->)]];
    [done..|].
  by intros [= -> ->].
Qed.

Lemma respond_dispatched req songId sources p :
  dispatched url_parse req = Some (songId, sources) ->
  respond url_parse req p = Some (chain songId sources p).
Proof. intros H. unfold respond. by rewrite (dispatched_handler _ _ _ H). Qed.

Lemma chain_status songId sources p :
  statusCode (chain songId sources p)
  = Some (match p with
          | Fulfilled v => if nullish v then 404 else 200
          | Rejected _ => 404
          end).
Proof. apply then_catch_status. Qed.

Lemma respond_status req p res :
  respond url_parse req p = Some res ->
  statusCode res = Some 200 \/ statusCode res = Some 404.
Proof.
  unfold respond.
  destruct (handler_cases req) as [(r & -> & Hs & _) | [(e & ->) | (i & l & ->)]].
  - by intros [= <-].
  - done.
  - intros [= <-]. rewrite chain_status.
    destruct p as [v|]; [destruct (nullish v)|]; auto.
Qed.

Lemma respond_has_cors req p res :
  respond url_parse req p = Some res -> has_cors res.
Proof.
  unfold respond.
  destruct (handler_cases req) as [(r & -> & _ & Hc) | [(e & ->) | (i & l & ->)]].
  - by intros [= <-].
  - done.
  - intros [= <-]. apply has_cors_then_catch, has_cors_cors_response.
Qed.

End ListenerFacts.

Lemma chain_fulfilled songId sources result :
  nullish result = false ->
  chain songId sources (Fulfilled result)
  = end_json (JObj (success_object songId sources result))
             (writeHead 200 json_content_type cors_response).
Proof. intros H. unfold chain. simpl. by rewrite on_fulfilled_object. Qed.

Lemma success_body_field songId sources result k :
  nullish result = false ->
  body_field (chain songId sources (Fulfilled result)) k
  = JSON_stringify (assoc k (success_object songId sources result)).
Proof.
  intros H. rewrite chain_fulfilled, body_field_end_json by done.
  apply json_assoc_members, success_object_NoDup.
Qed.

(** ** Success body (C1, C9) *)

(** C1, as stated, fails: the success body of the server names the track
    identifier [songId] and the checksum [md5]; it has no member [trackId]
    and no member [checksum]. *)
Lemma success_body_has_no_trackId_checksum :
  exists res,
    respond plain_url_parse (GET "/match/418602084?sources=qq,kugou")
            (Fulfilled sample_result) = Some res /\
    statusCode res = Some 200 /\
    body_field res "trackId" = None /\
    body_field res "checksum" = None /\
    body_field res "songId" = Some (JsonStr "418602084") /\
    body_field res "md5" = Some (JsonStr "abc123").
Proof. eexists. repeat split; by vm_compute. Qed.

(** C1 (amended): for every request on the match route whose promise is
    fulfilled with an object holding [url], [br], [size], [md5] and
    [source], the response has status 200 and its JSON body has exactly the
    members success (true), songId, requestedSources, audioUrl, bitrate,
    size, md5, source and type, in this order. *)
Theorem success_response_fields url_parse req id sources result :
  dispatched url_parse req = Some (JStr id, sources) ->
  forallb (fun k => defined (opt_get_prop result k))
          ["url"; "br"; "size"; "md5"; "source"] = true ->
  exists res,
    respond url_parse req (Fulfilled result) = Some res /\
    statusCode res = Some 200 /\
    body_fields res
    = ["success"; "songId"; "requestedSources"; "audioUrl"; "bitrate"; "size";
       "md5"; "source"; "type"] /\
    body_field res "success" = Some (JsonBool true).
Proof.
  intros Hd Hr.
  assert (nullish result = false) as Hn by (by destruct result).
  exists (chain (JStr id) sources (Fulfilled result)).
  split; [by apply respond_dispatched|].
  split; [by rewrite chain_status, Hn|].
  split; [|by rewrite success_body_field].
  rewrite chain_fulfilled, body_fields_end_json by done.
  rewrite json_members_defined; [apply success_object_keys|].
  cbn [forallb] in Hr. rewrite !andb_true_iff in Hr.
  destruct Hr as (Hu & Hb & Hs & Hm & Ho & _).
  unfold success_object, js_strings.
  repeat constructor; simpl; try done; by apply defined_spec.
Qed.

Lemma success_response_fields_witness :
  dispatched plain_url_parse (GET "/match/418602084?sources=qq,kugou")
    = Some (JStr "418602084", ["qq"; "kugou"]) /\
  exists res,
    respond plain_url_parse (GET "/match/418602084?sources=qq,kugou")
            (Fulfilled sample_result) = Some res /\
    statusCode res = Some 200 /\
    body_fields res
    = ["success"; "songId"; "requestedSources"; "audioUrl"; "bitrate"; "size";
       "md5"; "source"; "type"] /\
    body_field res "success" = Some (JsonBool true).
Proof.
  split; [reflexivity|].
  apply (success_response_fields plain_url_parse
           (GET "/match/418602084?sources=qq,kugou") "418602084"
           ["qq"; "kugou"] sample_result); reflexivity.
Defined.

(** C9: in every success response the member [bitrate] is the result's
    [br] as written by JSON.stringify, and the member [type] is decided by
    that bitrate alone: when [br] is the number 999000 the body reports
    bitrate 999000 and type "flac"; in every other case the reported
    bitrate is not 999000 and the type is "mp3". *)
Theorem type_follows_bitrate_sentinel url_parse req songId sources result res :
  dispatched url_parse req = Some (songId, sources) ->
  respond url_parse req (Fulfilled result) = Some res ->
  statusCode res = Some 200 ->
  body_field res "bitrate" = JSON_stringify (opt_get_prop result "br") /\
  (opt_get_prop result "br" = JNum 999000 ->
   body_field res "bitrate" = Some (JsonNum 999000) /\
   body_field res "type" = Some (JsonStr "flac")) /\
  (opt_get_prop result "br" <> JNum 999000 ->
   body_field res "bitrate" <> Some (JsonNum 999000) /\
   body_field res "type" = Some (JsonStr "mp3")).
Proof.
  intros Hd Hr Hs.
  assert (res = chain songId sources (Fulfilled result)) as ->.
  { rewrite (respond_dispatched _ _ _ _ _ Hd) in Hr. congruence. }
  rewrite chain_status in Hs.
  destruct (nullish result) eqn:Hn; [done|]. clear Hs.
  rewrite !success_body_field by done.
  change (assoc "bitrate" (success_object songId sources result))
    with (opt_get_prop result "br").
  change (assoc "type" (success_object songId sources result))
    with (JStr (if strict_eq_num (opt_get_prop result "br") 999000
                then "flac" else "mp3")).
  split; [done|]. split.
  - intros ->. done.
  - intros Hbr. split.
    + intros Hj. by apply JSON_stringify_num in Hj.
    + destruct (strict_eq_num (opt_get_prop result "br") 999000) eqn:E; [|done].
      by apply strict_eq_num_spec in E.
Qed.

Lemma type_follows_bitrate_sentinel_witness :
  let req := GET "/match/418602084" in
  let lossless := JObj [("url", JStr "https://example.com/audio.flac");
                        ("br", JNum 999000); ("source", JStr "kuwo")] in
  let text := JObj [("url", JStr "https://example.com/audio.mp3");
                    ("br", JStr "999000"); ("source", JStr "qq")] in
  (exists res,
     respond plain_url_parse req (Fulfilled lossless) = Some res /\
     statusCode res = Some 200 /\
     body_field res "bitrate" = Some (JsonNum 999000) /\
     body_field res "type" = Some (JsonStr "flac")) /\
  (exists res,
     respond plain_url_parse req (Fulfilled sample_result) = Some res /\
     statusCode res = Some 200 /\
     body_field res "bitrate" = Some (JsonNum 128000) /\
     body_field res "type" = Some (JsonStr "mp3")) /\
  (exists res,
     respond plain_url_parse req (Fulfilled text) = Some res /\
     statusCode res = Some 200 /\
     body_field res "bitrate" = Some (JsonStr "999000") /\
     body_field res "type" = Some (JsonStr "mp3")).
Proof.
  intros req lossless text.
  split; [|split].
  - exists (chain (JStr "418602084") default_sources (Fulfilled lossless)).
    split; [reflexivity|]. split; [reflexivity|].
    apply (type_follows_bitrate_sentinel plain_url_parse req
             (JStr "418602084") default_sources lossless); reflexivity.
  - exists (chain (JStr "418602084") default_sources (Fulfilled sample_result)).
    split; [reflexivity|]. split; [reflexivity|].
    destruct (type_follows_bitrate_sentinel plain_url_parse req
                (JStr "418602084") default_sources sample_result _
                eq_refl eq_refl eq_refl) as (Hb & _ & Hmp3).
    split; [exact Hb|]. apply Hmp3. discriminate.
  - exists (chain (JStr "418602084") default_sources (Fulfilled text)).
    split; [reflexivity|]. split; [reflexivity|].
    destruct (type_follows_bitrate_sentinel plain_url_parse req
                (JStr "418602084") default_sources text _
                eq_refl eq_refl eq_refl) as (Hb & _ & Hmp3).
    split; [exact Hb|]. apply Hmp3. discriminate.
Defined.

(** ** Headers (C10) *)

(** C10: every response the server sends, whatever the route and however
    the promise settles, carries the three CORS headers set at the top of
    the listener. *)
Theorem every_response_has_cors url_parse req p res :
  respond url_parse req p = Some res ->
  headers res !! "Access-Control-Allow-Origin" = Some "*" /\
  headers res !! "Access-Control-Allow-Methods" = Some "GET, OPTIONS" /\
  headers res !! "Access-Control-Allow-Headers" = Some "Content-Type".
Proof. apply respond_has_cors. Qed.

Lemma every_response_has_cors_witness :
  exists res,
    respond plain_url_parse (GET "/nowhere") (Rejected JUndefined) = Some res /\
    statusCode res = Some 404 /\
    headers res !! "Access-Control-Allow-Origin" = Some "*" /\
    headers res !! "Access-Control-Allow-Methods" = Some "GET, OPTIONS" /\
    headers res !! "Access-Control-Allow-Headers" = Some "Content-Type".
Proof.
  eexists. split; [reflexivity|]. split; [reflexivity|].
  eapply (every_response_has_cors plain_url_parse (GET "/nowhere")
            (Rejected JUndefined)).
  reflexivity.
Defined.

(** The same on the other routes and outcomes. *)
Example cors_on_all_routes :
  Forall (fun '(req, p) =>
            from_option has_cors False (respond plain_url_parse req p))
    [ (GET "/", Rejected JUndefined);
      (GET "/match/1", Fulfilled sample_result);
      (GET "/match/1", Rejected JNull);
      ({| method := "OPTIONS"; url := "/match/1" |}, Rejected JNull);
      ({| method := "POST"; url := "/match/1" |}, Rejected JNull) ].
Proof. repeat constructor; by vm_compute. Qed.

(** ** Routing and the arguments of [match] (C2, C5) *)

(** C2, as stated, fails: a GET of [/{trackId}] is not the resolution
    endpoint.  [match] is not called and the answer is the 404 of the
    unknown route, even if the track could be resolved. *)
Lemma bare_track_path_is_not_found :
  dispatched plain_url_parse (GET "/418602084") = None /\
  exists res,
    respond plain_url_parse (GET "/418602084") (Fulfilled sample_result)
      = Some res /\
    statusCode res = Some 404 /\
    body_field res "error" = Some (JsonStr "Not found") /\
    body_field res "availableEndpoints"
    = Some (JsonArr [JsonStr "/"; JsonStr "/match/{songId}"]).
Proof. split; [done|]. eexists. repeat split; by vm_compute. Qed.

(** C2 (amended): the resolution endpoint is GET /match/{songId}.  For a
    GET whose URL starts with /match/ and whose path is /match/ followed by
    an identifier (holding no further /match/), [match] is called with that
    identifier; with no [sources] parameter it gets the default list, and
    with [sources] set to comma-joined tokens it gets exactly these tokens
    in the order given. *)
Theorem match_route_arguments url_parse u id :
  String.prefix "/match/" u = true ->
  pathname (url_parse u) = "/match/" +:+ id ->
  occurs "/match/" id = false ->
  (query_sources (url_parse u) = QAbsent ->
   dispatched url_parse (GET u) = Some (JStr id, default_sources)) /\
  (forall tokens,
     query_sources (url_parse u) = QSingle (js_join "," tokens) ->
     js_join "," tokens <> "" ->
     forallb (fun t => negb (occurs "," t)) tokens = true ->
     dispatched url_parse (GET u) = Some (JStr id, tokens)).
Proof.
  intros Hu Hp Hid.
  assert (js_index (js_split "/match/" (pathname (url_parse u))) 1 = JStr id) as Hsong.
  { rewrite Hp, js_split_leading by done.
    unfold js_split. by rewrite split_from_absent. }
  unfold dispatched. rewrite handler_match_route by done. cbv zeta.
  rewrite Hsong. split.
  - by intros ->.
  - intros tokens -> Hne Hfree. unfold requested_sources.
    destruct (String.eqb_spec (js_join "," tokens) ""); [done|].
    rewrite (js_split_join ","%char); [done| |done].
    by intros ->.
Qed.

Lemma match_route_arguments_witness :
  dispatched plain_url_parse (GET "/match/418602084")
    = Some (JStr "418602084", default_sources) /\
  dispatched plain_url_parse (GET "/match/418602084?sources=kuwo,qq,migu")
    = Some (JStr "418602084", ["kuwo"; "qq"; "migu"]).
Proof.
  split.
  - apply (proj1 (match_route_arguments plain_url_parse
                    "/match/418602084" "418602084" eq_refl eq_refl eq_refl)).
    reflexivity.
  - apply (proj2 (match_route_arguments plain_url_parse
                    "/match/418602084?sources=kuwo,qq,migu" "418602084"
                    eq_refl eq_refl eq_refl) ["kuwo"; "qq"; "migu"]).
    + reflexivity.
    + discriminate.
    + reflexivity.
Defined.

(** C5, as stated, fails: without a [sources] parameter [match] is called
    with five sources; [bilivideo] and [joox], which the usage page lists as
    supported, are not among them. *)
Lemma default_sources_is_not_the_documented_list :
  dispatched plain_url_parse (GET "/match/418602084")
    = Some (JStr "418602084", ["qq"; "kugou"; "kuwo"; "migu"; "ytdlp"]) /\
  documented_sources usage_page
    = ["qq"; "kugou"; "kuwo"; "migu"; "ytdlp"; "bilivideo"; "joox"] /\
  ("bilivideo" ∉ default_sources) /\
  ("joox" ∉ default_sources).
Proof.
  repeat split; try reflexivity;
    apply (bool_decide_unpack _); by vm_compute.
Qed.

(** C5 (amended): for every request on the match route made without a
    [sources] parameter, [match] is called with qq, kugou, kuwo, migu and
    ytdlp, in this order: the first five of the seven sources the usage
    page lists, without bilivideo and joox. *)
Theorem default_sources_dispatched url_parse u :
  String.prefix "/match/" u = true ->
  query_sources (url_parse u) = QAbsent ->
  exists songId,
    dispatched url_parse (GET u)
      = Some (songId, ["qq"; "kugou"; "kuwo"; "migu"; "ytdlp"]) /\
    documented_sources usage_page
      = ["qq"; "kugou"; "kuwo"; "migu"; "ytdlp"] ++ ["bilivideo"; "joox"].
Proof.
  intros Hu Hq. eexists. split; [|reflexivity].
  unfold dispatched. rewrite handler_match_route by done.
  cbv zeta. rewrite Hq. reflexivity.
Qed.

Lemma default_sources_dispatched_witness :
  exists songId,
    dispatched plain_url_parse (GET "/match/1974443814")
      = Some (songId, ["qq"; "kugou"; "kuwo"; "migu"; "ytdlp"]) /\
    documented_sources usage_page
      = ["qq"; "kugou"; "kuwo"; "migu"; "ytdlp"] ++ ["bilivideo"; "joox"].
Proof.
  apply (default_sources_dispatched plain_url_parse "/match/1974443814");
    reflexivity.
Defined.

(** ** Status codes (C3, C4) *)

Lemma respond_match_route url_parse u s p :
  String.prefix "/match/" u = true ->
  query_sources (url_parse u) = QSingle s ->
  s <> "" ->
  let songId := js_index (js_split "/match/" (pathname (url_parse u))) 1 in
  dispatched url_parse (GET u) = Some (songId, js_split "," s) /\
  respond url_parse (GET u) p = Some (chain songId (js_split "," s) p).
Proof.
  intros Hu Hq Hs songId.
  assert (dispatched url_parse (GET u) = Some (songId, js_split "," s)) as Hd.
  { unfold dispatched. rewrite handler_match_route by done. cbv zeta.
    rewrite Hq. unfold requested_sources.
    by destruct (String.eqb_spec s ""). }
  split; [done|]. by apply respond_dispatched.
Qed.

(** C3, as stated, fails: a request with an empty track identifier and a
    source token that names no source is not turned away.  [match] is called
    with the empty identifier and the token, a rejection is answered 404,
    and no settlement of the promise is answered 400. *)
Lemma empty_id_unknown_source_is_dispatched :
  dispatched plain_url_parse (GET "/match/?sources=nosuch")
    = Some (JStr "", ["nosuch"]) /\
  (forall e,
     statusCode <$> respond plain_url_parse (GET "/match/?sources=nosuch") (Rejected e)
     = Some (Some 404)) /\
  (forall p res,
     respond plain_url_parse (GET "/match/?sources=nosuch") p = Some res ->
     statusCode res <> Some 400).
Proof.
  split; [reflexivity|]. split.
  - intros e. reflexivity.
  - intros p res H. by destruct (respond_status _ _ _ _ H) as [-> | ->].
Qed.

(** C3 (amended): the facade validates nothing.  For every GET on the match
    route with a non-empty [sources] value, [match] is called with the
    identifier found in the path (empty or not) and with the tokens as
    given (registered or not); if the promise is rejected the answer is
    HTTP 404, and no answer of the server has a status other than 200 or
    404, so none is a 400. *)
Theorem facade_does_not_validate url_parse u s :
  String.prefix "/match/" u = true ->
  query_sources (url_parse u) = QSingle s ->
  s <> "" ->
  dispatched url_parse (GET u)
    = Some (js_index (js_split "/match/" (pathname (url_parse u))) 1,
            js_split "," s) /\
  (forall e, exists res,
     respond url_parse (GET u) (Rejected e) = Some res /\
     statusCode res = Some 404) /\
  (forall req p res,
     respond url_parse req p = Some res ->
     statusCode res = Some 200 \/ statusCode res = Some 404).
Proof.
  intros Hu Hq Hs. split; [|split].
  - by apply (respond_match_route url_parse u s (Rejected JUndefined)).
  - intros e. eexists. split.
    + by apply (respond_match_route url_parse u s (Rejected e)).
    + apply chain_status.
  - apply respond_status.
Qed.

Lemma facade_does_not_validate_witness :
  dispatched plain_url_parse (GET "/match/?sources=nosuch,qq")
    = Some (JStr "", ["nosuch"; "qq"]) /\
  (forall e, exists res,
     respond plain_url_parse (GET "/match/?sources=nosuch,qq") (Rejected e) = Some res /\
     statusCode res = Some 404) /\
  (forall req p res,
     respond plain_url_parse req p = Some res ->
     statusCode res = Some 200 \/ statusCode res = Some 404).
Proof.
  apply (facade_does_not_validate plain_url_parse
           "/match/?sources=nosuch,qq" "nosuch,qq").
  - reflexivity.
  - reflexivity.
  - discriminate.
Defined.

(** C4, as stated, fails: an engine fault is answered 404, not 500.  This is
    so when [match] rejects with a TypeError, and when it fulfils with
    [null], which makes the success handler itself throw. *)
Lemma engine_fault_is_answered_404 :
  statusCode <$> respond plain_url_parse (GET "/match/418602084")
                   (Rejected (type_error "provider[name].check is not a function"))
    = Some (Some 404) /\
  statusCode <$> respond plain_url_parse (GET "/match/418602084") (Fulfilled JNull)
    = Some (Some 404) /\
  body_field (chain (JStr "418602084") default_sources (Fulfilled JNull)) "details"
    = Some (JsonStr "Cannot read properties of null (reading 'source')").
Proof. repeat split; by vm_compute. Qed.

(** C4 (amended): the status mapping of a resolution is two-way.  A promise
    fulfilled with a value other than [null] and [undefined] is answered
    200; every rejection, whatever the error, is answered 404, and so is a
    fulfilment with [null] or [undefined]; no outcome is answered 500. *)
Theorem status_mapping url_parse req songId sources p :
  dispatched url_parse req = Some (songId, sources) ->
  exists res,
    respond url_parse req p = Some res /\
    statusCode res
    = Some (match p with
            | Fulfilled v => if nullish v then 404 else 200
            | Rejected _ => 404
            end) /\
    statusCode res <> Some 500.
Proof.
  intros Hd. eexists. split; [by apply respond_dispatched|].
  rewrite chain_status. split; [done|].
  destruct p as [v|]; [destruct (nullish v)|]; done.
Qed.

Lemma status_mapping_witness :
  exists res,
    respond plain_url_parse (GET "/match/418602084")
            (Rejected (type_error "provider[name].check is not a function"))
      = Some res /\
    statusCode res = Some 404 /\
    statusCode res <> Some 500.
Proof.
  apply (status_mapping plain_url_parse (GET "/match/418602084")
           (JStr "418602084") default_sources
           (Rejected (type_error "provider[name].check is not a function"))).
  reflexivity.
Defined.

(** ** Failure body (C7) *)

(** C7, as stated, fails: two sources are attempted and the promise is
    rejected without a reason; the failure body holds one summary and one
    detail string, not a list with an entry per source. *)
Lemma failure_body_has_no_per_source_list :
  body <$> respond plain_url_parse (GET "/match/418602084?sources=qq,kugou")
             (Rejected JUndefined)
  = Some (Some (JsonBody (JsonObj [
      ("success", JsonBool false);
      ("songId", JsonStr "418602084");
      ("requestedSources", JsonArr [JsonStr "qq"; JsonStr "kugou"]);
      ("error", JsonStr "Song not found in any source");
      ("details", JsonStr "Unknown error") ]))).
Proof. reflexivity. Qed.

(** C7 (amended): for every rejected resolution the response has status 404
    and a body with the members success (false), songId, requestedSources,
    error and details: [error] is the fixed summary, [details] is the
    single message of the rejection (or "Unknown error" when it has none),
    and [requestedSources] repeats the sources of the request, so its
    length is the number of sources selected. *)
Theorem rejection_response_body url_parse req id sources error :
  dispatched url_parse req = Some (JStr id, sources) ->
  exists res details,
    respond url_parse req (Rejected error) = Some res /\
    statusCode res = Some 404 /\
    body_fields res = ["success"; "songId"; "requestedSources"; "error"; "details"] /\
    body_field res "success" = Some (JsonBool false) /\
    body_field res "requestedSources" = Some (JsonArr (map JsonStr sources)) /\
    body_field res "error" = Some (JsonStr "Song not found in any source") /\
    body_field res "details" = Some details /\
    JSON_stringify (js_or (opt_get_prop error "message") (JStr "Unknown error"))
      = Some details.
Proof.
  intros Hd.
  destruct (JSON_stringify (js_or (opt_get_prop error "message") (JStr "Unknown error")))
    as [details|] eqn:Hdet; last first.
  { apply JSON_stringify_None in Hdet. by apply js_or_defined in Hdet. }
  assert (JSON_stringify (js_strings sources) = Some (JsonArr (map JsonStr sources))) as Hsrc.
  { unfold js_strings. simpl. by rewrite map_map. }
  exists (chain (JStr id) sources (Rejected error)), details.
  split; [by apply respond_dispatched|].
  unfold chain, then_catch, on_rejected.
  rewrite body_fields_end_json, !body_field_end_json, !json_members_cons.
  rewrite Hdet, Hsrc. simpl. done.
Qed.

Lemma rejection_response_body_witness :
  exists res details,
    respond plain_url_parse (GET "/match/418602084?sources=qq,kugou")
            (Rejected (JObj [("message", JStr "All sources failed")])) = Some res /\
    statusCode res = Some 404 /\
    body_fields res = ["success"; "songId"; "requestedSources"; "error"; "details"] /\
    body_field res "success" = Some (JsonBool false) /\
    body_field res "requestedSources" = Some (JsonArr (map JsonStr ["qq"; "kugou"])) /\
    body_field res "error" = Some (JsonStr "Song not found in any source") /\
    body_field res "details" = Some details /\
    JSON_stringify (js_or (opt_get_prop (JObj [("message", JStr "All sources failed")])
                                        "message") (JStr "Unknown error"))
      = Some details.
Proof.
  apply (rejection_response_body plain_url_parse (GET "/match/418602084?sources=qq,kugou")
           "418602084" ["qq"; "kugou"]).
  reflexivity.
Defined.

(** ** Configuration at start-up (C6) *)

(** Whatever the operator put in the environment, the four toggles read
    back as the literals assigned at lines 5-8; [PORT] is left as found. *)
Lemma startup_env_toggles (env : gmap string string) :
  startup_env env !! "ENABLE_LOCAL_VIP" = Some "true" /\
  startup_env env !! "ENABLE_FLAC" = Some "true" /\
  startup_env env !! "SELECT_MAX_BR" = Some "true" /\
  startup_env env !! "FOLLOW_SOURCE_ORDER" = Some "false" /\
  startup_env env !! "PORT" = env !! "PORT".
Proof.
  unfold startup_env. repeat split.
  - by rewrite 3!lookup_insert_ne, lookup_insert_eq.
  - by rewrite 2!lookup_insert_ne, lookup_insert_eq.
  - by rewrite lookup_insert_ne, lookup_insert_eq.
  - by rewrite lookup_insert_eq.
  - by rewrite 5!lookup_insert_ne.
Qed.

Lemma PORT_from_env (env : gmap string string) p :
  env !! "PORT" = Some p -> p <> "" -> PORT env = JStr p.
Proof.
  intros H Hp. unfold PORT, env_get.
  destruct (startup_env_toggles env) as (_ & _ & _ & _ & ->).
  rewrite H. unfold js_or. simpl. by destruct (String.eqb_spec p "").
Qed.

(** C6: the server is started with FOLLOW_SOURCE_ORDER=true,
    ENABLE_FLAC=false and PORT=8080.  Once the module is loaded the port is
    the operator's, but the two toggles read "false" and "true": the values
    supplied are overwritten. *)
Theorem startup_env_overwrites_operator_toggles :
  let env : gmap string string :=
    <["FOLLOW_SOURCE_ORDER" := "true"]>
      (<["ENABLE_FLAC" := "false"]> {["PORT" := "8080"]}) in
  env !! "FOLLOW_SOURCE_ORDER" = Some "true" /\
  startup_env env !! "FOLLOW_SOURCE_ORDER" = Some "false" /\
  env !! "ENABLE_FLAC" = Some "false" /\
  startup_env env !! "ENABLE_FLAC" = Some "true" /\
  PORT env = JStr "8080".
Proof.
  intros env.
  destruct (startup_env_toggles env) as (_ & Hflac & _ & Horder & _).
  split; [by vm_compute|]. split; [done|].
  split; [by vm_compute|]. split; [done|].
  apply PORT_from_env; [by vm_compute | done].
Qed.

(** ** Ordered fallback (C8) *)

Module EngineFacts.
Import Engine.

Section Run.

Variable track : TrackIdentifier.

Lemma run_decided n m r : phase m = Decided r -> run track n m = m.
Proof.
  intros H. induction n as [|n IH]; [done|].
  simpl. unfold step at 1. rewrite H. exact IH.
Qed.

(** One transition invokes at most one adapter, and forgets none. *)
Lemma step_invokes_one m :
  exists l, invoked (step track m) = invoked m ++ l /\ (length l <= 1)%nat.
Proof.
  destruct m as [ph inv]. unfold step. cbn [phase invoked].
  destruct ph as [[|]|[|[] ?] ?|[|] ? ?|]; cbn [phase invoked];
    first [ exists []; split; [by rewrite app_nil_r | simpl; lia]
          | eexists [_]; split; [reflexivity | simpl; lia] ].
Qed.

Lemma step_dispatch s a pending fs inv :
  step track {| phase := Dispatching ((s, a) :: pending) fs; invoked := inv |}
  = {| phase := Collecting (a track) pending fs; invoked := inv ++ [s] |}.
Proof. reflexivity. Qed.

Lemma step_collect_candidate c pending fs inv :
  step track {| phase := Collecting (Candidate c) pending fs; invoked := inv |}
  = {| phase := Decided (Success c); invoked := inv |}.
Proof. reflexivity. Qed.

Lemma step_collect_failed f pending fs inv :
  step track {| phase := Collecting (Failed f) pending fs; invoked := inv |}
  = {| phase := Dispatching pending (fs ++ [f]); invoked := inv |}.
Proof. reflexivity. Qed.

Lemma run_two n m : run track (S (S n)) m = run track n (step track (step track m)).
Proof. reflexivity. Qed.

(** The run from [Dispatching], when the adapters of [before] fail and
    the next one yields [c]. *)
Lemma run_dispatching before s a after c :
  forallb (fails track) before = true ->
  a track = Candidate c ->
  forall n fs inv,
    let m := run track n
               {| phase := Dispatching (before ++ (s, a) :: after) fs;
                  invoked := inv |} in
    invoked m `prefix_of` inv ++ map fst before ++ [s] /\
    ((2 * length before + 2 <= n)%nat ->
     phase m = Decided (Success c) /\
     invoked m = inv ++ map fst before ++ [s]).
Proof.
  intros Hfail Hwin.
  induction before as [|[s1 a1] before IH]; intros n fs inv m; subst m.
  - cbn [app map length].
    destruct n as [|[|n]].
    + split; [by apply prefix_app_r | simpl; intros; lia].
    + cbn [run]. rewrite step_dispatch. cbn [phase invoked].
      split; [reflexivity | intros; lia].
    + rewrite run_two, step_dispatch, Hwin, step_collect_candidate.
      rewrite run_decided with (r := Success c) by done.
      cbn [phase invoked]. split; [reflexivity | done].
  - cbn [forallb] in Hfail. apply andb_true_iff in Hfail as [Hf1 Hfail].
    unfold fails in Hf1. simpl in Hf1.
    destruct (a1 track) as [|f1] eqn:Ha1; [done|].
    specialize (IH Hfail).
    change (((s1, a1) :: before) ++ (s, a) :: after)
      with ((s1, a1) :: (before ++ (s, a) :: after)).
    cbn [map length fst].
    destruct n as [|[|n]].
    + split; [by apply prefix_app_r | simpl; intros; lia].
    + cbn [run]. rewrite step_dispatch. cbn [phase invoked].
      split; [|intros; lia].
      apply prefix_app, prefix_cons, prefix_nil.
    + rewrite run_two, step_dispatch, Ha1, step_collect_failed.
      destruct (IH n (fs ++ [f1]) (inv ++ [s1])) as [Hpre Hdec].
      rewrite <- !app_assoc in Hpre, Hdec.
      split; [done|]. intros Hn. apply Hdec. lia.
Qed.

(** Each transition keeps the invocations in priority order. *)
Lemma step_in_priority_order selected m :
  in_priority_order selected m -> in_priority_order selected (step track m).
Proof.
  destruct m as [ph inv]. unfold in_priority_order, step. cbn [phase invoked].
  destruct ph as [[|x sel]|[|[s a] pending] fs|[c|f] pending fs|r];
    cbn [phase invoked]; intros H.
  - destruct H as [_ ->]. apply prefix_nil.
  - by destruct H as [<- ->].
  - rewrite H. simpl. by rewrite app_nil_r.
  - rewrite H. simpl. by rewrite <- app_assoc.
  - rewrite H. by apply prefix_app_r.
  - done.
  - done.
Qed.

Lemma run_in_priority_order selected n :
  forall m,
    in_priority_order selected m -> in_priority_order selected (run track n m).
Proof.
  induction n as [|n IH]; intros m H; [done|].
  cbn [run]. by apply IH, step_in_priority_order.
Qed.

Lemma in_priority_order_prefix selected m :
  in_priority_order selected m -> invoked m `prefix_of` map fst selected.
Proof.
  unfold in_priority_order.
  destruct (phase m) as [sel|pending fs|o pending fs|r]; intros H.
  - destruct H as [_ ->]. apply prefix_nil.
  - rewrite H. by apply prefix_app_r.
  - rewrite H. by apply prefix_app_r.
  - done.
Qed.

(** From [Dispatching], two transitions per pending adapter and one more
    reach a decision. *)
Lemma run_dispatching_decides pending :
  forall n fs inv,
    (2 * length pending + 1 <= n)%nat ->
    exists r,
      phase (run track n {| phase := Dispatching pending fs; invoked := inv |})
      = Decided r.
Proof.
  induction pending as [|[s a] pending IH]; intros n fs inv Hn.
  - destruct n as [|n]; [simpl in Hn; lia|].
    cbn [run]. exists (Exhausted fs).
    by rewrite run_decided with (r := Exhausted fs).
  - destruct n as [|[|n]]; [simpl in Hn; lia..|].
    rewrite run_two, step_dispatch.
    destruct (a track) as [c|f].
    + rewrite step_collect_candidate. exists (Success c).
      by rewrite run_decided with (r := Success c).
    + rewrite step_collect_failed. apply IH. simpl in Hn. lia.
Qed.

(** Every run decides. *)
Lemma resolve_decides selected :
  exists r, decision (resolve track selected) = Some r.
Proof.
  unfold resolve, decision.
  replace (2 * length selected + 2)%nat with (S (2 * length selected + 1)) by lia.
  cbn [run]. destruct selected as [|x selected].
  - exists ValidationError.
    by rewrite run_decided with (r := ValidationError).
  - destruct (run_dispatching_decides (x :: selected)
                (2 * length (x :: selected) + 1) [] []) as [r Hr]; [lia|].
    exists r. unfold step, start. cbn [phase invoked]. by rewrite Hr.
Qed.

End Run.

End EngineFacts.

(** C8: under ordered fallback, for every request: the run decides; at
    every point of it the adapters invoked so far are a beginning of the
    selection in its priority order, whether an adapter succeeds or all
    fail; and every transition invokes at most one adapter.  When the
    adapters ahead of [s] fail and the adapter of [s] returns [c], the run
    decides Success [c], the adapters invoked are those ahead of [s] and [s]
    itself, and at no point of the run has any adapter after [s] been
    invoked. *)
Theorem ordered_fallback_stops_at_first_success track :
  (forall selected,
     (exists r, Engine.decision (Engine.resolve track selected) = Some r) /\
     (forall n,
        Engine.invoked (Engine.run track n (Engine.start selected))
          `prefix_of` map fst selected)) /\
  (forall m, exists l,
     Engine.invoked (Engine.step track m) = Engine.invoked m ++ l /\
     (length l <= 1)%nat) /\
  (forall before s a after c,
     forallb (Engine.fails track) before = true ->
     a track = Engine.Candidate c ->
     let selected := before ++ (s, a) :: after in
     Engine.decision (Engine.resolve track selected) = Some (Engine.Success c) /\
     Engine.invoked (Engine.resolve track selected) = map fst before ++ [s] /\
     (forall n,
        Engine.invoked (Engine.run track n (Engine.start selected))
          `prefix_of` map fst before ++ [s])).
Proof.
  split; [|split].
  { intros selected. split; [apply EngineFacts.resolve_decides|].
    intros n. apply EngineFacts.in_priority_order_prefix.
    apply EngineFacts.run_in_priority_order. by split. }
  { apply EngineFacts.step_invokes_one. }
  intros before s a after c Hfail Hwin selected.
  assert (forall n, Engine.run track (S n) (Engine.start selected)
    = Engine.run track n
        {| Engine.phase := Engine.Dispatching selected [];
           Engine.invoked := [] |}) as Hstart.
  { intros n. simpl. f_equal. unfold Engine.step, Engine.start. simpl.
    subst selected. by destruct before. }
  assert (Engine.phase (Engine.resolve track selected)
            = Engine.Decided (Engine.Success c) /\
          Engine.invoked (Engine.resolve track selected) = map fst before ++ [s])
    as [Hphase Hinv].
  { unfold Engine.resolve.
    replace (2 * length selected + 2)%nat with (S (2 * length selected + 1)) by lia.
    rewrite Hstart.
    apply (EngineFacts.run_dispatching track before s a after c Hfail Hwin
             (2 * length selected + 1) [] []).
    subst selected. rewrite length_app. simpl. lia. }
  split; [unfold Engine.decision; by rewrite Hphase|].
  split; [done|].
  intros [|n].
  - simpl. apply prefix_nil.
  - rewrite Hstart.
    apply (EngineFacts.run_dispatching track before s a after c Hfail Hwin n [] []).
Qed.

Lemma ordered_fallback_stops_at_first_success_witness :
  let y := sample_stream "y" 320000 in
  let selected :=
    [("x", not_found "x"); ("y", fun _ => Engine.Candidate y);
     ("z", fun _ => Engine.Candidate (sample_stream "z" 999000))] in
  let exhausted := [("x", not_found "x"); ("y", not_found "y"); ("z", not_found "z")] in
  (Engine.decision (Engine.resolve "418602084" selected) = Some (Engine.Success y) /\
   Engine.invoked (Engine.resolve "418602084" selected) = ["x"; "y"] /\
   (forall n,
      Engine.invoked (Engine.run "418602084" n (Engine.start selected))
        `prefix_of` ["x"; "y"])) /\
  (Engine.invoked (Engine.resolve "418602084" exhausted) = ["x"; "y"; "z"] /\
   (forall n,
      Engine.invoked (Engine.run "418602084" n (Engine.start exhausted))
        `prefix_of` ["x"; "y"; "z"])).
Proof.
  intros y selected exhausted.
  destruct (ordered_fallback_stops_at_first_success "418602084")
    as (Hall & _ & Hfirst).
  split.
  - apply (Hfirst [("x", not_found "x")] "y" (fun _ => Engine.Candidate y)
             [("z", fun _ => Engine.Candidate (sample_stream "z" 999000))] y);
      reflexivity.
  - split; [reflexivity|]. apply (Hall exhausted).
Defined.

(** * Further properties of the listener *)

(** ** More on [split] and [join] *)

Lemma prefix_split sep s :
  String.prefix sep s = true -> exists rest, s = sep +:+ rest.
Proof.
  revert s. induction sep as [|c sep IH]; intros s H.
  - by exists s.
  - destruct s as [|d s]; [done|]. simpl in H.
    destruct (ascii_dec c d) as [->|]; [|done].
    destruct (IH _ H) as [rest ->]. by exists rest.
Qed.

Lemma length_append s t :
  String.length (s +:+ t) = (String.length s + String.length t)%nat.
Proof. induction s as [|c s IH]; [done|]. rewrite append_cons. simpl. by rewrite IH. Qed.

Lemma split_from_nonempty sep cur k s : split_from sep cur k s <> [].
Proof.
  revert cur k. induction s as [|c s IH]; intros cur k; [done|].
  cbn [split_from]. destruct k; [|apply IH].
  destruct (String.prefix sep (String c s)); [done | apply IH].
Qed.

Lemma js_join_cons sep x l :
  l <> [] -> js_join sep (x :: l) = x +:+ sep +:+ js_join sep l.
Proof. by destruct l. Qed.

(** Joining the pieces with the separator gives the scanned text back. *)
Lemma js_join_split_from c sep n :
  forall s cur,
    (String.length s <= n)%nat ->
    js_join (String c sep) (split_from (String c sep) cur O s) = cur +:+ s.
Proof.
  induction n as [|n IH]; intros s cur Hn.
  - destruct s; [|simpl in Hn; lia]. simpl. by rewrite append_nil_r.
  - destruct s as [|d s]; [simpl; by rewrite append_nil_r|].
    destruct (String.prefix (String c sep) (String d s)) eqn:Hp.
    + destruct (prefix_split _ _ Hp) as [rest Hrest]. rewrite Hrest.
      rewrite split_from_sep, js_join_cons by apply split_from_nonempty.
      rewrite IH; [done|].
      apply (f_equal String.length) in Hrest. rewrite length_append in Hrest.
      simpl in Hrest, Hn. lia.
    + cbn [split_from]. rewrite Hp, IH by (simpl in Hn; lia).
      by rewrite append_assoc.
Qed.

Lemma js_join_split sep s : sep <> "" -> js_join sep (js_split sep s) = s.
Proof.
  destruct sep as [|c sep]; [done|]. intros _. unfold js_split.
  by rewrite (js_join_split_from c sep (String.length s)).
Qed.

Lemma occurs_char_snoc c d cur :
  c <> d ->
  occurs (String c "") cur = false ->
  occurs (String c "") (cur +:+ String d "") = false.
Proof.
  intros Hcd. induction cur as [|e cur IH]; intros H.
  - simpl. by destruct (ascii_dec c d).
  - rewrite append_cons. cbn [occurs] in *.
    apply orb_false_iff in H as [Hp Ho]. rewrite IH by done.
    simpl in *. destruct (ascii_dec c e); [|done]. by destruct cur.
Qed.

(** With a one-character separator no piece holds the separator. *)
Lemma split_from_pieces_free c s :
  forall cur,
    occurs (String c "") cur = false ->
    Forall (fun t => occurs (String c "") t = false)
           (split_from (String c "") cur O s).
Proof.
  induction s as [|d s IH]; intros cur Hcur.
  - by constructor.
  - cbn [split_from].
    destruct (String.prefix (String c "") (String d s)) eqn:Hp.
    + constructor; [done|]. apply IH. reflexivity.
    + apply IH, occurs_char_snoc; [|done].
      intros ->. simpl in Hp. destruct (ascii_dec d d); [|done]. by destruct s.
Qed.

(** The first piece is a beginning of the scanned text. *)
Lemma split_from_first sep s :
  forall cur x l,
    split_from sep cur O s = x :: l -> exists t, cur +:+ s = x +:+ t.
Proof.
  induction s as [|d s IH]; intros cur x l H.
  - simpl in H. injection H as <- _. by exists "".
  - cbn [split_from] in H.
    destruct (String.prefix sep (String d s)).
    + injection H as <- _. by eexists.
    + destruct (IH _ _ _ H) as [t Ht]. exists t.
      by rewrite <- Ht, append_assoc.
Qed.

(** ** More on the promise handlers *)

Lemma json_members_sublist ps : map fst (json_members ps) `sublist_of` map fst ps.
Proof.
  induction ps as [|[k x] ps IH]; [done|].
  rewrite json_members_cons. destruct (JSON_stringify x); simpl.
  - by apply sublist_skip.
  - by apply sublist_cons.
Qed.

Lemma JSON_stringify_strings l :
  JSON_stringify (js_strings l) = Some (JsonArr (map JsonStr l)).
Proof. unfold js_strings. simpl. by rewrite map_map. Qed.

(** The object literal of the failure body. *)
Lemma chain_rejected songId sources error :
  chain songId sources (Rejected error)
  = end_json (JObj [
      ("success", JBool false);
      ("songId", songId);
      ("requestedSources", js_strings sources);
      ("error", JStr "Song not found in any source");
      ("details", js_or (opt_get_prop error "message") (JStr "Unknown error"))
    ]) (writeHead 404 json_content_type cors_response).
Proof. reflexivity. Qed.

Lemma failure_body_field songId sources error k :
  body_field (chain songId sources (Rejected error)) k
  = JSON_stringify (assoc k [
      ("success", JBool false);
      ("songId", songId);
      ("requestedSources", js_strings sources);
      ("error", JStr "Song not found in any source");
      ("details", js_or (opt_get_prop error "message") (JStr "Unknown error"))
    ]).
Proof.
  rewrite chain_rejected, body_field_end_json.
  apply json_assoc_members. apply (bool_decide_unpack _). by vm_compute.
Qed.

(** What the success handler throws on [undefined] or [null] reaches the
    failure handler. *)
Lemma chain_nullish songId sources v :
  nullish v = true ->
  chain songId sources (Fulfilled v)
  = chain songId sources
      (Rejected (type_error ("Cannot read properties of " +:+ nullish_name v
                             +:+ " (reading 'source')"))).
Proof. by destruct v. Qed.

(** Every settlement ends in a JSON object sent with the JSON content
    type. *)
Lemma chain_shape songId sources p :
  exists ps status,
    chain songId sources p
    = end_json (JObj ps) (writeHead status json_content_type cors_response).
Proof.
  destruct p as [v|e]; [|by eexists _, _].
  destruct (nullish v) eqn:Hv.
  - rewrite chain_nullish by done. by eexists _, _.
  - rewrite chain_fulfilled by done. by eexists _, _.
Qed.

(** ** More on the listener *)

Lemma dispatched_inv url_parse req songId sources :
  dispatched url_parse req = Some (songId, sources) ->
  method req = "GET" /\
  String.prefix "/match/" (url req) = true /\
  songId = js_index (js_split "/match/" (pathname (url_parse (url req)))) 1 /\
  requested_sources (query_sources (url_parse (url req))) = Normal sources.
Proof.
  unfold dispatched, handler.
  destruct (String.eqb (method req) "OPTIONS"); [done|].
  destruct (String.prefix "/match/" (url req) && String.eqb (method req) "GET") eqn:E.
  - cbv zeta. destruct (requested_sources _) eqn:R; [|done].
    intros [= <- <-]. apply andb_true_iff in E as [Hp Hm].
    by apply String.eqb_eq in Hm.
  - by destruct (String.eqb (url req) "/" && String.eqb (method req) "GET").
Qed.

Lemma requested_sources_cases q sources :
  requested_sources q = Normal sources ->
  (sources = default_sources /\ (q = QAbsent \/ q = QSingle "")) \/
  (exists s, q = QSingle s /\ s <> "" /\ sources = js_split "," s).
Proof.
  destruct q as [|s|l]; simpl; [|destruct (String.eqb_spec s "")|done].
  - intros [= <-]. left. auto.
  - subst s. intros [= <-]. left. auto.
  - intros [= <-]. right. eauto.
Qed.

(** The 404 of the unknown route. *)
Lemma handler_not_found url_parse req :
  String.eqb (method req) "OPTIONS" = false ->
  String.prefix "/match/" (url req) && String.eqb (method req) "GET" = false ->
  String.eqb (url req) "/" && String.eqb (method req) "GET" = false ->
  handler url_parse req
  = Responded (end_json (JObj [
      ("error", JStr "Not found");
      ("availableEndpoints", js_strings ["/"; "/match/{songId}"])
    ]) (writeHead 404 json_content_type cors_response)).
Proof. intros H1 H2 H3. unfold handler. by rewrite H1, H2, H3. Qed.

(** ** Routing *)

(** X1: an OPTIONS request is answered at once, whatever its URL, the match
    route included: status 200, no body, the three CORS headers and no
    Content-Type, and [match] is not called. *)
Theorem options_preflight url_parse u p :
  dispatched url_parse {| method := "OPTIONS"; url := u |} = None /\
  respond url_parse {| method := "OPTIONS"; url := u |} p
  = Some {| headers := headers cors_response;
            statusCode := Some 200;
            body := Some NoBody |} /\
  has_cors cors_response /\
  headers cors_response !! "Content-Type" = None.
Proof.
  split; [reflexivity|]. split; [|split; [apply has_cors_cors_response | by vm_compute]].
  unfold respond, handler. simpl. unfold end_, writeHead. simpl.
  by rewrite (left_id_L ∅ (∪)).
Qed.

(** X2: [match] is called exactly for the GET requests whose URL starts with
    /match/ and whose [sources] parameter is not repeated; no other request
    reaches the engine. *)
Theorem match_called_iff url_parse req :
  is_Some (dispatched url_parse req) <->
  method req = "GET" /\
  String.prefix "/match/" (url req) = true /\
  forall l, query_sources (url_parse (url req)) <> QMulti l.
Proof.
  split.
  - intros [[songId sources] H].
    destruct (dispatched_inv _ _ _ _ H) as (Hm & Hp & _ & Hs).
    split; [done|]. split; [done|]. intros l Hq. by rewrite Hq in Hs.
  - intros (Hm & Hp & Hq). destruct req as [m u]. simpl in *. subst m.
    unfold dispatched. fold (GET u). rewrite handler_match_route by done.
    cbv zeta. destruct (query_sources (url_parse u)) as [|s|l] eqn:E; simpl.
    + by eexists.
    + by destruct (String.eqb s ""); eexists.
    + by destruct (Hq l).
Qed.

(** X3: when the [sources] parameter is repeated, [query.sources] is an
    array and the call of [split] throws inside the listener: nothing
    catches it, [match] is not called and no response is ended. *)
Theorem repeated_sources_parameter_is_uncaught url_parse u l p :
  String.prefix "/match/" u = true ->
  query_sources (url_parse u) = QMulti l ->
  handler url_parse (GET u)
  = Uncaught (type_error "parsedUrl.query.sources.split is not a function")
             cors_response /\
  dispatched url_parse (GET u) = None /\
  respond url_parse (GET u) p = None.
Proof.
  intros Hu Hq. unfold dispatched, respond.
  rewrite handler_match_route by done. cbv zeta. by rewrite Hq.
Qed.

Lemma repeated_sources_parameter_is_uncaught_witness :
  handler plain_url_parse (GET "/match/418602084?sources=qq&sources=kugou")
  = Uncaught (type_error "parsedUrl.query.sources.split is not a function")
             cors_response /\
  dispatched plain_url_parse (GET "/match/418602084?sources=qq&sources=kugou") = None /\
  respond plain_url_parse (GET "/match/418602084?sources=qq&sources=kugou")
          (Fulfilled sample_result) = None.
Proof.
  apply (repeated_sources_parameter_is_uncaught plain_url_parse
           "/match/418602084?sources=qq&sources=kugou" ["qq"; "kugou"]
           (Fulfilled sample_result)); reflexivity.
Defined.

(** X4: the usage page is served for the URL [/] alone.  A GET of any other
    URL that does not start with /match/ (a query string after the slash is
    enough) gets status 404 and the JSON body naming the two endpoints. *)
Theorem usage_page_only_at_root url_parse u p :
  String.prefix "/match/" u = false ->
  exists res,
    respond url_parse (GET u) p = Some res /\
    (u = "/" ->
       statusCode res = Some 200 /\
       body res = Some (HtmlBody usage_page) /\
       headers res !! "Content-Type" = Some "text/html; charset=utf-8") /\
    (u <> "/" ->
       statusCode res = Some 404 /\
       body res = Some (JsonBody (JsonObj [
         ("error", JsonStr "Not found");
         ("availableEndpoints", JsonArr [JsonStr "/"; JsonStr "/match/{songId}"])
       ])) /\
       headers res !! "Content-Type" = Some "application/json").
Proof.
  intros Hu. destruct (String.eqb_spec u "/") as [->|Hne].
  - eexists. split; [reflexivity|]. split; [|done].
    intros _. repeat split; by vm_compute.
  - eexists. unfold respond. rewrite handler_not_found; simpl.
    + split; [reflexivity|]. split; [done|]. intros _.
      repeat split; by vm_compute.
    + done.
    + by rewrite Hu.
    + by destruct (String.eqb_spec u "/").
Qed.

Lemma usage_page_only_at_root_witness :
  exists res,
    respond plain_url_parse (GET "/?lang=zh") (Rejected JUndefined) = Some res /\
    ("/?lang=zh" = "/" ->
       statusCode res = Some 200 /\
       body res = Some (HtmlBody usage_page) /\
       headers res !! "Content-Type" = Some "text/html; charset=utf-8") /\
    ("/?lang=zh" <> "/" ->
       statusCode res = Some 404 /\
       body res = Some (JsonBody (JsonObj [
         ("error", JsonStr "Not found");
         ("availableEndpoints", JsonArr [JsonStr "/"; JsonStr "/match/{songId}"])
       ])) /\
       headers res !! "Content-Type" = Some "application/json").
Proof.
  apply (usage_page_only_at_root plain_url_parse "/?lang=zh" (Rejected JUndefined)).
  reflexivity.
Defined.

Lemma respond_other_method url_parse req p :
  method req <> "GET" ->
  method req <> "OPTIONS" ->
  dispatched url_parse req = None /\
  exists res,
    respond url_parse req p = Some res /\
    statusCode res = Some 404 /\
    body res = Some (JsonBody (JsonObj [
      ("error", JsonStr "Not found");
      ("availableEndpoints", JsonArr [JsonStr "/"; JsonStr "/match/{songId}"])
    ])).
Proof.
  intros Hg Ho.
  assert (String.eqb (method req) "GET" = false) as Eg by by apply String.eqb_neq.
  assert (String.eqb (method req) "OPTIONS" = false) as Eo by by apply String.eqb_neq.
  unfold dispatched, respond.
  rewrite handler_not_found; [|done|by rewrite Eg, andb_false_r..].
  split; [done|]. eexists. split; [reflexivity|]. split; by vm_compute.
Qed.

(** X5: a request whose method is neither GET nor OPTIONS gets the 404 of
    the unknown route on every URL, [/] and the match route included, and
    [match] is not called. *)
Theorem other_methods_not_found url_parse req p :
  method req <> "GET" ->
  method req <> "OPTIONS" ->
  dispatched url_parse req = None /\
  exists res,
    respond url_parse req p = Some res /\
    statusCode res = Some 404 /\
    body res = Some (JsonBody (JsonObj [
      ("error", JsonStr "Not found");
      ("availableEndpoints", JsonArr [JsonStr "/"; JsonStr "/match/{songId}"])
    ])).
Proof. apply respond_other_method. Qed.

Lemma other_methods_not_found_witness :
  dispatched plain_url_parse {| method := "POST"; url := "/match/418602084" |} = None /\
  exists res,
    respond plain_url_parse {| method := "POST"; url := "/match/418602084" |}
            (Fulfilled sample_result) = Some res /\
    statusCode res = Some 404 /\
    body res = Some (JsonBody (JsonObj [
      ("error", JsonStr "Not found");
      ("availableEndpoints", JsonArr [JsonStr "/"; JsonStr "/match/{songId}"])
    ])).
Proof.
  apply (other_methods_not_found plain_url_parse
           {| method := "POST"; url := "/match/418602084" |}
           (Fulfilled sample_result)); discriminate.
Defined.

(** X6: status 200 is only ever sent in answer to a GET or an OPTIONS
    request, the two methods the Access-Control-Allow-Methods header
    names. *)
Theorem ok_only_for_get_and_options url_parse req p res :
  respond url_parse req p = Some res ->
  statusCode res = Some 200 ->
  method req = "GET" \/ method req = "OPTIONS".
Proof.
  intros Hr Hs.
  destruct (String.eqb_spec (method req) "GET") as [|Hg]; [by left|].
  destruct (String.eqb_spec (method req) "OPTIONS") as [|Ho]; [by right|].
  destruct (respond_other_method url_parse req p Hg Ho)
    as (_ & res' & Hr' & Hs' & _).
  congruence.
Qed.

Lemma ok_only_for_get_and_options_witness :
  exists res,
    respond plain_url_parse (GET "/") (Rejected JNull) = Some res /\
    statusCode res = Some 200 /\
    (method (GET "/") = "GET" \/ method (GET "/") = "OPTIONS").
Proof.
  eexists. split; [reflexivity|]. split; [reflexivity|].
  eapply (ok_only_for_get_and_options plain_url_parse (GET "/") (Rejected JNull));
    reflexivity.
Defined.

(** X7: every response the server ends is complete and typed by its body:
    it has a status; a JSON body goes with Content-Type application/json,
    the usage page with text/html; charset=utf-8, and only the answer to
    OPTIONS has no body and no Content-Type. *)
Theorem content_type_matches_body url_parse req p res :
  respond url_parse req p = Some res ->
  is_Some (statusCode res) /\
  match body res with
  | Some (JsonBody _) => headers res !! "Content-Type" = Some "application/json"
  | Some (HtmlBody _) =>
      headers res !! "Content-Type" = Some "text/html; charset=utf-8"
  | Some NoBody =>
      headers res !! "Content-Type" = None /\ method req = "OPTIONS"
  | None => False
  end.
Proof.
  unfold respond, handler.
  destruct (String.eqb_spec (method req) "OPTIONS") as [Ho|_].
  { intros [= <-]. split; [by eexists|]. simpl. split; [by vm_compute | done]. }
  destruct (String.prefix "/match/" (url req) && String.eqb (method req) "GET").
  - cbv zeta. destruct (requested_sources _) as [sources|]; [|done].
    intros [= <-]. fold cors_response.
    set (songId := js_index _ 1).
    change (then_catch _ _ p) with (chain songId sources p).
    destruct (chain_shape songId sources p) as (ps & status & ->).
    split; [by eexists|]. simpl. by vm_compute.
  - destruct (String.eqb (url req) "/" && String.eqb (method req) "GET");
      intros [= <-]; (split; [by eexists|]); by vm_compute.
Qed.

Lemma content_type_matches_body_witness :
  exists res,
    respond plain_url_parse (GET "/match/418602084") (Fulfilled sample_result)
      = Some res /\
    is_Some (statusCode res) /\
    match body res with
    | Some (JsonBody _) => headers res !! "Content-Type" = Some "application/json"
    | Some (HtmlBody _) =>
        headers res !! "Content-Type" = Some "text/html; charset=utf-8"
    | Some NoBody =>
        headers res !! "Content-Type" = None /\
        method (GET "/match/418602084") = "OPTIONS"
    | None => False
    end.
Proof.
  eexists. split; [reflexivity|].
  eapply (content_type_matches_body plain_url_parse (GET "/match/418602084")
            (Fulfilled sample_result)).
  reflexivity.
Defined.

(** ** The arguments of [match] *)

(** X8: whenever [match] is called, its source list is not empty and none
    of its tokens holds a comma. *)
Theorem dispatched_sources_wellformed url_parse req songId sources :
  dispatched url_parse req = Some (songId, sources) ->
  sources <> [] /\ Forall (fun t => occurs "," t = false) sources.
Proof.
  intros H. destruct (dispatched_inv _ _ _ _ H) as (_ & _ & _ & Hs).
  destruct (requested_sources_cases _ _ Hs) as [[-> _] | (s & _ & _ & ->)].
  - split; [done|]. repeat constructor.
  - split; [apply split_from_nonempty|].
    by apply (split_from_pieces_free ","%char).
Qed.

Lemma dispatched_sources_wellformed_witness :
  dispatched plain_url_parse (GET "/match/418602084?sources=qq,,kugou")
    = Some (JStr "418602084", ["qq"; ""; "kugou"]) /\
  ["qq"; ""; "kugou"] <> [] /\
  Forall (fun t => occurs "," t = false) ["qq"; ""; "kugou"].
Proof.
  split; [reflexivity|].
  apply (dispatched_sources_wellformed plain_url_parse
           (GET "/match/418602084?sources=qq,,kugou") (JStr "418602084")).
  reflexivity.
Defined.

(** X9: the [sources] parameter and the list given to [match] determine
    each other: an empty value selects the default list, and for any other
    value joining the list with commas gives the value back, so nothing of
    it is trimmed, dropped or reordered. *)
Theorem sources_parameter_round_trip url_parse req songId sources s :
  dispatched url_parse req = Some (songId, sources) ->
  query_sources (url_parse (url req)) = QSingle s ->
  (s = "" -> sources = default_sources) /\
  (s <> "" -> js_join "," sources = s).
Proof.
  intros H Hq. destruct (dispatched_inv _ _ _ _ H) as (_ & _ & _ & Hs).
  rewrite Hq in Hs.
  destruct (requested_sources_cases _ _ Hs) as [[-> [?|[= <-]]] | (s' & [= <-] & Hne & ->)];
    try done.
  split; [done|]. intros _. by apply js_join_split.
Qed.

Lemma sources_parameter_round_trip_witness :
  ("kuwo,qq,,migu" = "" -> ["kuwo"; "qq"; ""; "migu"] = default_sources) /\
  ("kuwo,qq,,migu" <> "" -> js_join "," ["kuwo"; "qq"; ""; "migu"] = "kuwo,qq,,migu").
Proof.
  apply (sources_parameter_round_trip plain_url_parse
           (GET "/match/418602084?sources=kuwo,qq,,migu") (JStr "418602084")
           ["kuwo"; "qq"; ""; "migu"] "kuwo,qq,,migu"); reflexivity.
Defined.

(** X10: when the parsed path keeps the leading /match/, the identifier
    given to [match] is a string, possibly empty, that begins the rest of
    the path, and the body of the response, success or failure, has it as
    its [songId] member. *)
Theorem songId_is_a_string url_parse req songId sources rest p :
  dispatched url_parse req = Some (songId, sources) ->
  pathname (url_parse (url req)) = "/match/" +:+ rest ->
  exists id tail res,
    songId = JStr id /\
    rest = id +:+ tail /\
    respond url_parse req p = Some res /\
    body_field res "songId" = Some (JsonStr id).
Proof.
  intros H Hp. destruct (dispatched_inv _ _ _ _ H) as (_ & _ & Hid & _).
  rewrite Hp, js_split_leading in Hid by done.
  unfold js_split in Hid.
  destruct (split_from "/match/" "" 0 rest) as [|id more] eqn:E;
    [by apply split_from_nonempty in E|].
  destruct (split_from_first _ _ _ _ _ E) as [tail Ht].
  exists id, tail, (chain songId sources p).
  split; [done|]. split; [done|]. split; [by apply respond_dispatched|].
  subst songId. destruct p as [v|e].
  - destruct (nullish v) eqn:Hv.
    + by rewrite chain_nullish, failure_body_field.
    + by rewrite success_body_field.
  - by rewrite failure_body_field.
Qed.

Lemma songId_is_a_string_witness :
  exists id tail res,
    JStr "418602084" = JStr id /\
    "418602084/match/1" = id +:+ tail /\
    respond plain_url_parse (GET "/match/418602084/match/1") (Rejected JNull)
      = Some res /\
    body_field res "songId" = Some (JsonStr id).
Proof.
  apply (songId_is_a_string plain_url_parse (GET "/match/418602084/match/1")
           (JStr "418602084") default_sources "418602084/match/1" (Rejected JNull));
    reflexivity.
Defined.

(** ** The bodies of the match route *)

(** X11: however the promise settles, the body on the match route repeats
    the request ([songId] as given to [match], [requestedSources] the list
    given to [match]) and its [success] member agrees with the status: true
    with 200, false with 404 and the fixed error summary. *)
Theorem match_body_echoes_request url_parse req songId sources p :
  dispatched url_parse req = Some (songId, sources) ->
  exists res,
    respond url_parse req p = Some res /\
    body_field res "songId" = JSON_stringify songId /\
    body_field res "requestedSources" = Some (JsonArr (map JsonStr sources)) /\
    ((body_field res "success" = Some (JsonBool true) /\
      statusCode res = Some 200 /\
      body_field res "error" = None) \/
     (body_field res "success" = Some (JsonBool false) /\
      statusCode res = Some 404 /\
      body_field res "error" = Some (JsonStr "Song not found in any source"))).
Proof.
  intros H. exists (chain songId sources p).
  split; [by apply respond_dispatched|].
  assert (forall e,
    body_field (chain songId sources (Rejected e)) "songId" = JSON_stringify songId /\
    body_field (chain songId sources (Rejected e)) "requestedSources"
      = Some (JsonArr (map JsonStr sources)) /\
    body_field (chain songId sources (Rejected e)) "success" = Some (JsonBool false) /\
    statusCode (chain songId sources (Rejected e)) = Some 404 /\
    body_field (chain songId sources (Rejected e)) "error"
      = Some (JsonStr "Song not found in any source")) as Hrej.
  { intros e. rewrite !failure_body_field. simpl. by rewrite map_map. }
  destruct p as [v|e].
  - destruct (nullish v) eqn:Hv.
    + rewrite chain_nullish by done.
      destruct (Hrej (type_error ("Cannot read properties of " +:+ nullish_name v
                                  +:+ " (reading 'source')")))
        as (? & ? & ? & ? & ?).
      split; [done|]. split; [done|]. by right.
    + rewrite chain_status, Hv, !success_body_field by done. simpl.
      rewrite map_map. split; [done|]. split; [done|]. by left.
  - destruct (Hrej e) as (? & ? & ? & ? & ?).
    split; [done|]. split; [done|]. by right.
Qed.

Lemma match_body_echoes_request_witness :
  exists res,
    respond plain_url_parse (GET "/match/418602084?sources=kuwo,qq")
            (Fulfilled JUndefined) = Some res /\
    body_field res "songId" = JSON_stringify (JStr "418602084") /\
    body_field res "requestedSources" = Some (JsonArr (map JsonStr ["kuwo"; "qq"])) /\
    ((body_field res "success" = Some (JsonBool true) /\
      statusCode res = Some 200 /\
      body_field res "error" = None) \/
     (body_field res "success" = Some (JsonBool false) /\
      statusCode res = Some 404 /\
      body_field res "error" = Some (JsonStr "Song not found in any source"))).
Proof.
  apply (match_body_echoes_request plain_url_parse
           (GET "/match/418602084?sources=kuwo,qq") (JStr "418602084")
           ["kuwo"; "qq"] (Fulfilled JUndefined)).
  reflexivity.
Defined.

(** X12: the [details] member of a failure body is the [message] of the
    rejection when that is a non-empty string, and "Unknown error" when the
    rejection has no message or a falsy one; a rejection with a bare string
    loses its text. *)
Theorem rejection_details url_parse req songId sources error :
  dispatched url_parse req = Some (songId, sources) ->
  exists res,
    respond url_parse req (Rejected error) = Some res /\
    (forall m, opt_get_prop error "message" = JStr m -> m <> "" ->
       body_field res "details" = Some (JsonStr m)) /\
    (truthy (opt_get_prop error "message") = false ->
       body_field res "details" = Some (JsonStr "Unknown error")) /\
    (forall text, error = JStr text ->
       body_field res "details" = Some (JsonStr "Unknown error")).
Proof.
  intros H. exists (chain songId sources (Rejected error)).
  split; [by apply respond_dispatched|].
  rewrite failure_body_field.
  change (assoc "details" _)
    with (js_or (opt_get_prop error "message") (JStr "Unknown error")).
  unfold js_or. split; [|split].
  - intros m -> Hm. simpl. by destruct (String.eqb_spec m "").
  - by intros ->.
  - by intros text ->.
Qed.

Lemma rejection_details_witness :
  exists res,
    respond plain_url_parse (GET "/match/418602084") (Rejected (JStr "timeout"))
      = Some res /\
    (forall m, opt_get_prop (JStr "timeout") "message" = JStr m -> m <> "" ->
       body_field res "details" = Some (JsonStr m)) /\
    (truthy (opt_get_prop (JStr "timeout") "message") = false ->
       body_field res "details" = Some (JsonStr "Unknown error")) /\
    (forall text, JStr "timeout" = JStr text ->
       body_field res "details" = Some (JsonStr "Unknown error")).
Proof.
  apply (rejection_details plain_url_parse (GET "/match/418602084")
           (JStr "418602084") default_sources (JStr "timeout")).
  reflexivity.
Defined.

(** X13: a success body passes the result through: [audioUrl], [bitrate],
    [size], [md5] and [source] are the result's [url], [br], [size], [md5]
    and [source] as JSON.stringify writes them, so a property the result
    lacks is a member the body lacks, and the body never has a member
    besides the nine of the literal. *)
Theorem success_body_passes_result_through url_parse req songId sources result :
  dispatched url_parse req = Some (songId, sources) ->
  nullish result = false ->
  exists res,
    respond url_parse req (Fulfilled result) = Some res /\
    body_field res "audioUrl" = JSON_stringify (opt_get_prop result "url") /\
    body_field res "bitrate" = JSON_stringify (opt_get_prop result "br") /\
    body_field res "size" = JSON_stringify (opt_get_prop result "size") /\
    body_field res "md5" = JSON_stringify (opt_get_prop result "md5") /\
    body_field res "source" = JSON_stringify (opt_get_prop result "source") /\
    body_fields res `sublist_of`
      ["success"; "songId"; "requestedSources"; "audioUrl"; "bitrate"; "size";
       "md5"; "source"; "type"].
Proof.
  intros H Hn. exists (chain songId sources (Fulfilled result)).
  split; [by apply respond_dispatched|].
  rewrite !success_body_field by done.
  repeat (split; [reflexivity|]).
  rewrite chain_fulfilled, body_fields_end_json by done.
  rewrite <- (success_object_keys songId sources result).
  apply json_members_sublist.
Qed.

Lemma success_body_passes_result_through_witness :
  let result := JObj [("url", JStr "https://example.com/a.mp3"); ("md5", JNull)] in
  exists res,
    respond plain_url_parse (GET "/match/418602084") (Fulfilled result) = Some res /\
    body_field res "audioUrl" = JSON_stringify (opt_get_prop result "url") /\
    body_field res "bitrate" = JSON_stringify (opt_get_prop result "br") /\
    body_field res "size" = JSON_stringify (opt_get_prop result "size") /\
    body_field res "md5" = JSON_stringify (opt_get_prop result "md5") /\
    body_field res "source" = JSON_stringify (opt_get_prop result "source") /\
    body_fields res `sublist_of`
      ["success"; "songId"; "requestedSources"; "audioUrl"; "bitrate"; "size";
       "md5"; "source"; "type"].
Proof.
  intros result.
  apply (success_body_passes_result_through plain_url_parse
           (GET "/match/418602084") (JStr "418602084") default_sources result);
    reflexivity.
Defined.

(** X14: a promise fulfilled with [undefined] or [null] is answered exactly
    as a promise rejected with the TypeError that reading [result.source]
    raises: the two responses are equal, status 404 and failure body. *)
Theorem nullish_fulfilment_is_a_rejection url_parse req songId sources v :
  dispatched url_parse req = Some (songId, sources) ->
  nullish v = true ->
  respond url_parse req (Fulfilled v)
  = respond url_parse req
      (Rejected (type_error ("Cannot read properties of " +:+ nullish_name v
                             +:+ " (reading 'source')"))) /\
  statusCode <$> respond url_parse req (Fulfilled v) = Some (Some 404).
Proof.
  intros H Hv. rewrite !(respond_dispatched _ _ _ _ _ H).
  rewrite chain_nullish by done. split; reflexivity.
Qed.

Lemma nullish_fulfilment_is_a_rejection_witness :
  respond plain_url_parse (GET "/match/418602084") (Fulfilled JUndefined)
  = respond plain_url_parse (GET "/match/418602084")
      (Rejected (type_error "Cannot read properties of undefined (reading 'source')")) /\
  statusCode <$> respond plain_url_parse (GET "/match/418602084") (Fulfilled JUndefined)
  = Some (Some 404).
Proof.
  apply (nullish_fulfilment_is_a_rejection plain_url_parse (GET "/match/418602084")
           (JStr "418602084") default_sources JUndefined); reflexivity.
Defined.

(** ** The environment *)

(** X15: the value handed to [server.listen] is the number 3000 exactly
    when PORT is unset or empty in the operator's environment; any other
    PORT is handed over as the string the operator gave, unconverted and
    unchecked.  The assignments made at start-up do not touch it. *)
Theorem listening_port (env : gmap string string) :
  (PORT env = JNum 3000 <-> env !! "PORT" = None \/ env !! "PORT" = Some "") /\
  (forall p, env !! "PORT" = Some p -> p <> "" -> PORT env = JStr p).
Proof.
  split; [|intros p; apply PORT_from_env].
  unfold PORT, env_get.
  destruct (startup_env_toggles env) as (_ & _ & _ & _ & ->).
  destruct (env !! "PORT") as [p|] eqn:E; [|split; [by left | done]].
  unfold js_or. simpl. destruct (String.eqb_spec p "") as [->|Hne]; simpl.
  - split; [by right | done].
  - split; [done|]. intros [|[= ->]]; done.
Qed.

(** X16: for every environment the process is started with, after start-up
    DEVELOPMENT and the four toggles read the literals of lines 2-8, every
    other variable reads as the operator set it, and running the
    assignments again changes nothing. *)
Theorem startup_env_frame (env : gmap string string) :
  startup_env env !! "DEVELOPMENT" = Some "true" /\
  startup_env env !! "ENABLE_LOCAL_VIP" = Some "true" /\
  startup_env env !! "ENABLE_FLAC" = Some "true" /\
  startup_env env !! "SELECT_MAX_BR" = Some "true" /\
  startup_env env !! "FOLLOW_SOURCE_ORDER" = Some "false" /\
  (forall k,
     k ∉ ["DEVELOPMENT"; "ENABLE_LOCAL_VIP"; "ENABLE_FLAC"; "SELECT_MAX_BR";
          "FOLLOW_SOURCE_ORDER"] ->
     startup_env env !! k = env !! k) /\
  startup_env (startup_env env) = startup_env env.
Proof.
  destruct (startup_env_toggles env) as (Hvip & Hflac & Hbr & Horder & _).
  split; [unfold startup_env; by rewrite 4!lookup_insert_ne, lookup_insert_eq|].
  repeat (split; [done|]). split.
  - intros k Hk. rewrite !not_elem_of_cons in Hk.
    destruct Hk as (? & ? & ? & ? & ? & _).
    unfold startup_env. by rewrite 5!lookup_insert_ne.
  - apply map_eq. intros k. unfold startup_env.
    rewrite !lookup_insert. repeat case_decide; done.
Qed.

(** ** Unanswered requests *)

(** X17: once the promise has settled, a request is left without a response
    in one case only: a GET on the match route whose [sources] parameter is
    repeated.  Every other request is answered. *)
Theorem unanswered_iff url_parse req p :
  respond url_parse req p = None <->
  method req = "GET" /\
  String.prefix "/match/" (url req) = true /\
  exists l, query_sources (url_parse (url req)) = QMulti l.
Proof.
  unfold respond, handler.
  destruct (String.eqb_spec (method req) "OPTIONS") as [Ho|_].
  { split; [done|]. intros (Hg & _). congruence. }
  destruct (String.prefix "/match/" (url req)) eqn:Hp; simpl.
  - destruct (String.eqb_spec (method req) "GET") as [Hg|Hg].
    + destruct (query_sources (url_parse (url req))) as [|s|l] eqn:Hq; simpl.
      * split; [done|]. by intros (_ & _ & l & ?).
      * destruct (String.eqb s ""); (split; [done|]); by intros (_ & _ & l & ?).
      * split; [|done]. intros _. eauto.
    + destruct (String.eqb (url req) "/"); simpl;
        (split; [done|]); by intros (? & _).
  - destruct (String.eqb (url req) "/" && String.eqb (method req) "GET");
      (split; [done|]); by intros (_ & ? & _).
Qed.
